(** * efiextract: header validation and payload extraction of EFI zboot images

    A shallow embedding of [efiextract.c] (the struct
    [linux_efi_zboot_header], [fixendian], [copy_data] and [main]) together
    with the properties of the program that the specification states.

    Conventions of the embedding.
    - Integers of the C program are [Z], with the wrap-around of the C type
      written out.  The data model is LP64: [long] and [size_t] are 64 bits
      wide, [uint32_t] is 32 bits wide.
    - Bytes are [Byte.byte]; a file is the list of its bytes.
    - The C library ([fopen], [fseek], [fread], [fwrite], [fclose],
      [le32toh], [memcmp], [printf]) is modelled by its documented behaviour
      on an explicit stream state; every call on a stream is recorded in a
      chronological trace of events.
    - An output stream passes what it is given to the device at the call of
      [fwrite], and a device that is full says so to that call.  This is what
      a stdio stream does with a whole chunk of [sizeof(buf)] bytes, which is
      larger than its buffer; a smaller write may be held back in the buffer
      and be lost only at [fclose], whose result the program does not look
      at.  The properties that conclude a write error are therefore stated
      for a sink whose room ends within a whole chunk, and those that
      conclude a complete copy for a sink with room for all of it.
    - The two paths of the command line may name the same file: opening the
      output with mode ["w"] then empties the file under the input stream,
      which is open already.
    - The byte order of the host is a parameter of the program. *)

From Stdlib Require Import ZArith List Bool Lia.
From Stdlib.Strings Require Import String Ascii Byte.
From Stdlib Require Import DecimalString.
Import ListNotations.

Local Open Scope Z_scope.
Local Open Scope list_scope.

(** * Part I: the program and the vocabulary of its specification *)

(* ------------------------------------------------------------------ *)
(** ** Bytes and machine integers *)

Definition byte_to_Z (b : byte) : Z := Z.of_N (Byte.to_N b).

Definition byte_of_Z (z : Z) : byte :=
  match Byte.of_N (Z.to_N (z mod 256)) with
  | Some b => b
  | None => x00
  end.

Definition uint32_max : Z := 4294967295.
Definition uint32 (z : Z) : Z := z mod 2 ^ 32.
Definition size_t (z : Z) : Z := z mod 2 ^ 64.

(** The byte order of the machine that runs the program. *)
Inductive byte_order := LittleEndian | BigEndian.

(** Reading a [uint32_t] object out of the four bytes that represent it in
    memory, as the host does. *)
Definition load_uint32 (host : byte_order) (bs : list byte) : Z :=
  match bs with
  | [b0; b1; b2; b3] =>
      match host with
      | LittleEndian =>
          Z.lor (Z.lor (byte_to_Z b0) (Z.shiftl (byte_to_Z b1) 8))
                (Z.lor (Z.shiftl (byte_to_Z b2) 16) (Z.shiftl (byte_to_Z b3) 24))
      | BigEndian =>
          Z.lor (Z.lor (Z.shiftl (byte_to_Z b0) 24) (Z.shiftl (byte_to_Z b1) 16))
                (Z.lor (Z.shiftl (byte_to_Z b2) 8) (byte_to_Z b3))
      end
  | _ => 0
  end.

(** [bswap_32] of <byteswap.h>, which [le32toh] expands to on a big-endian
    host. *)
Definition bswap_32 (x : Z) : Z :=
  Z.lor (Z.lor (Z.shiftr (Z.land x 4278190080) 24)
               (Z.shiftr (Z.land x 16711680) 8))
        (Z.lor (uint32 (Z.shiftl (Z.land x 65280) 8))
               (uint32 (Z.shiftl (Z.land x 255) 24))).

(** [le32toh] of <endian.h>: the identity on a little-endian host, a byte
    swap on a big-endian one. *)
Definition le32toh (host : byte_order) (x : Z) : Z :=
  match host with
  | LittleEndian => x
  | BigEndian => bswap_32 x
  end.

(** [fixendian]: [*ptr = le32toh( *ptr)], on the value stored at [ptr]. *)
Definition fixendian (host : byte_order) (v : Z) : Z := le32toh host v.

(** The little-endian wire encoding of an unsigned 32-bit value, as the
    specification words it: least significant byte first. *)
Definition encode_le (x : Z) : list byte :=
  [ byte_of_Z x;
    byte_of_Z (Z.shiftr x 8);
    byte_of_Z (Z.shiftr x 16);
    byte_of_Z (Z.shiftr x 24) ].

(** Decoding a wire field, as [main] does for [payload_offset],
    [payload_size] and [pe_header_offset]: the bytes are read into the struct
    and the field is then passed through [fixendian]. *)
Definition decode (host : byte_order) (bs : list byte) : Z :=
  fixendian host (load_uint32 host bs).

(* ------------------------------------------------------------------ *)
(** ** The process: standard streams, [errno] and the trace of calls *)

Inductive errno := E0 | ENOENT | EACCES | EINVAL | ESPIPE | ENOSPC.

Definition strerror (e : errno) : string :=
  match e with
  | E0 => "Success"
  | ENOENT => "No such file or directory"
  | EACCES => "Permission denied"
  | EINVAL => "Invalid argument"
  | ESPIPE => "Illegal seek"
  | ENOSPC => "No space left on device"
  end.

(** The two [FILE *] variables of the program. *)
Inductive stream := Fin | Fout.

(** One entry per call of the C library on a stream, with its outcome. *)
Inductive event :=
| Efopen (s : stream) (ok : bool)
| Efseek (offset : Z) (ok : bool)
| Efread (size nmemb : Z) (ok : bool)
| Efwrite (size nmemb : Z) (ok : bool)
| Efclose (s : stream).

Record proc := mkProc {
  p_out : list string;      (* what was printed on stdout, call by call *)
  p_err : list string;      (* what was printed on stderr, call by call *)
  p_trace : list event;     (* calls on the streams, oldest first *)
  p_errno : errno
}.

Definition proc0 : proc := mkProc [] [] [] E0.

Definition log (e : event) (p : proc) : proc :=
  mkProc (p_out p) (p_err p) (p_trace p ++ [e]) (p_errno p).

Definition set_errno (e : errno) (p : proc) : proc :=
  mkProc (p_out p) (p_err p) (p_trace p) e.

Definition printf_stdout (s : string) (p : proc) : proc :=
  mkProc (p_out p ++ [s]) (p_err p) (p_trace p) (p_errno p).

Definition fprintf_stderr (s : string) (p : proc) : proc :=
  mkProc (p_out p) (p_err p ++ [s]) (p_trace p) (p_errno p).

Definition nl : string := String (ascii_of_nat 10) EmptyString.

(* ------------------------------------------------------------------ *)
(** ** Streams *)

(** An input stream: the bytes of the file, the read position, and whether
    the file can be positioned at all (a pipe cannot). *)
Record istream := mkIn {
  i_data : list byte;
  i_pos : Z;
  i_seekable : bool
}.

(** An output stream: the bytes written so far and the number of bytes the
    device still accepts. *)
Record ostream := mkOut {
  o_data : list byte;
  o_room : Z
}.

Definition Zlength {A} (l : list A) : Z := Z.of_nat (List.length l).

(** [slice off n l] is [l[off : off+n]]. *)
Definition slice {A} (off n : Z) (l : list A) : list A :=
  firstn (Z.to_nat n) (skipn (Z.to_nat off) l).

(** [fseek(s, offset, SEEK_SET)]: fails on a stream that cannot be
    positioned and on a negative offset; a position past the end of the file
    is accepted. *)
Definition fseek (s : istream) (offset : Z) (p : proc) : Z * istream * proc :=
  if negb (i_seekable s) then
    (-1, s, set_errno ESPIPE (log (Efseek offset false) p))
  else if offset <? 0 then
    (-1, s, set_errno EINVAL (log (Efseek offset false) p))
  else
    (0, mkIn (i_data s) offset (i_seekable s), log (Efseek offset true) p).

(** [fread(ptr, size, nmemb, s)] on the object [obj] that [ptr] points to:
    as many bytes as are left in the file, at most [size * nmemb], overwrite
    the beginning of the object; the result is the number of complete
    items. *)
Definition fread (obj : list byte) (size nmemb : Z) (s : istream) (p : proc)
  : Z * list byte * istream * proc :=
  let avail := Z.max 0 (Zlength (i_data s) - i_pos s) in
  let n := Z.max 0 (Z.min (size * nmemb) avail) in
  let items := n / size in
  let bytes := slice (i_pos s) n (i_data s) in
  (items,
   bytes ++ skipn (List.length bytes) obj,
   mkIn (i_data s) (i_pos s + n) (i_seekable s),
   log (Efread size nmemb (items =? nmemb)) p).

(** [fwrite(ptr, size, nmemb, s)] from the object [obj]: the device takes
    as many of the [size * nmemb] bytes as it has room for, and the result
    is the number of complete items that it took.  The bytes reach the
    device at the call, as those of a write larger than the buffer of the
    stream do. *)
Definition fwrite (obj : list byte) (size nmemb : Z) (s : ostream) (p : proc)
  : Z * ostream * proc :=
  let n := Z.max 0 (Z.min (size * nmemb) (o_room s)) in
  let items := n / size in
  (items,
   mkOut (o_data s ++ firstn (Z.to_nat n) obj) (o_room s - n),
   let p' := log (Efwrite size nmemb (items =? nmemb)) p in
   if items =? nmemb then p' else set_errno ENOSPC p').

(* ------------------------------------------------------------------ *)
(** ** [copy_data] *)

(** [sizeof(buf)] for [unsigned char buf[16384]]. *)
Definition sizeof_buf : Z := 16384.

(** The macro [MIN] of <sys/param.h>. *)
Definition MIN (a b : Z) : Z := if a <? b then a else b.

(** The statement at which [copy_data] returns: the three [return]s of the
    error branches and the end of the function body. *)
Inductive copy_exit :=
| ret_seek_error      (* line 54 *)
| ret_read_error      (* line 62 *)
| ret_write_error     (* line 67 *)
| ret_end.            (* line 72 *)

Record copy_result := mkCopy {
  c_exit : copy_exit;
  c_fin : istream;
  c_fout : ostream;
  c_proc : proc
}.

(** The loop [while (len) { ... }].  [buf] is the content of the local
    buffer; [fuel] bounds the number of evaluations of the loop condition. *)
Fixpoint copy_loop (fuel : nat) (buf : list byte) (fin : istream)
    (fout : ostream) (len : Z) (p : proc) : option copy_result :=
  match fuel with
  | O => None
  | S fuel' =>
      if len =? 0 then Some (mkCopy ret_end fin fout p)
      else
        let size := MIN len sizeof_buf in
        let '(r, buf1, fin1, p1) := fread buf size 1 fin p in
        if negb (r =? 1) then
          Some (mkCopy ret_read_error fin1 fout
                  (fprintf_stderr ("Error reading data" ++ nl) p1))
        else
          let '(w, fout1, p2) := fwrite buf1 size 1 fout p1 in
          if negb (w =? 1) then
            Some (mkCopy ret_write_error fin1 fout1
                    (fprintf_stderr ("Error writing data" ++ nl) p2))
          else
            copy_loop fuel' buf1 fin1 fout1 (size_t (len - size)) p2
  end.

(** [copy_data(fin, fout, offset, len)]; [buf] is the indeterminate initial
    content of the local buffer. *)
Definition copy_data (fuel : nat) (buf : list byte) (fin : istream)
    (fout : ostream) (offset len : Z) (p : proc) : option copy_result :=
  let '(r, fin1, p1) := fseek fin offset p in
  if negb (r =? 0) then
    Some (mkCopy ret_seek_error fin1 fout
            (fprintf_stderr ("Error seeking data: " ++ strerror (p_errno p1)) p1))
  else
    copy_loop fuel buf fin1 fout len p1.

(* ------------------------------------------------------------------ *)
(** ** [struct linux_efi_zboot_header] *)

Inductive ctype :=
| Tuint8
| Tchar
| Tuint32
| Tarray (t : ctype) (n : Z).

Fixpoint sizeof (t : ctype) : Z :=
  match t with
  | Tuint8 | Tchar => 1
  | Tuint32 => 4
  | Tarray t n => n * sizeof t
  end.

Fixpoint alignof (t : ctype) : Z :=
  match t with
  | Tuint8 | Tchar => 1
  | Tuint32 => 4
  | Tarray t _ => alignof t
  end.

Inductive field :=
| msdos_magic | reserved0 | zimg | payload_offset | payload_size
| reserved1 | compression_type | linux_magic | pe_header_offset.

Definition field_eqb (f g : field) : bool :=
  match f, g with
  | msdos_magic, msdos_magic | reserved0, reserved0 | zimg, zimg
  | payload_offset, payload_offset | payload_size, payload_size
  | reserved1, reserved1 | compression_type, compression_type
  | linux_magic, linux_magic | pe_header_offset, pe_header_offset => true
  | _, _ => false
  end.

(** The members of the struct, in declaration order. *)
Definition linux_efi_zboot_header : list (field * ctype) :=
  [ (msdos_magic, Tarray Tuint8 2);
    (reserved0, Tarray Tuint8 2);
    (zimg, Tarray Tuint8 4);
    (payload_offset, Tuint32);
    (payload_size, Tuint32);
    (reserved1, Tarray Tuint8 8);
    (compression_type, Tarray Tchar 32);
    (linux_magic, Tarray Tuint8 4);
    (pe_header_offset, Tuint32) ].

(** The least multiple of [a] that is not below [n]. *)
Definition align_up (n a : Z) : Z := (n + a - 1) / a * a.

(** Layout of a struct as the C ABI does it: every member at the next
    offset that is a multiple of its alignment. *)
Fixpoint layout (at_ : Z) (ms : list (field * ctype)) : list (field * (Z * Z)) :=
  match ms with
  | [] => []
  | (f, t) :: ms' =>
      let o := align_up at_ (alignof t) in
      (f, (o, sizeof t)) :: layout (o + sizeof t) ms'
  end.

Definition struct_end (ms : list (field * ctype)) : Z :=
  fold_left (fun at_ ft => align_up at_ (alignof (snd ft)) + sizeof (snd ft)) ms 0.

Definition struct_align (ms : list (field * ctype)) : Z :=
  fold_left (fun a ft => Z.max a (alignof (snd ft))) ms 1.

(** [sizeof(struct ...)]: the end of the last member, padded to the
    alignment of the struct. *)
Definition sizeof_struct (ms : list (field * ctype)) : Z :=
  align_up (struct_end ms) (struct_align ms).

(** [sizeof(header)]. *)
Definition sizeof_header : Z := sizeof_struct linux_efi_zboot_header.

Fixpoint lookup_field (f : field) (l : list (field * (Z * Z))) : Z * Z :=
  match l with
  | [] => (0, 0)
  | (g, os) :: l' => if field_eqb f g then os else lookup_field f l'
  end.

Definition offsetof (f : field) : Z :=
  fst (lookup_field f (layout 0 linux_efi_zboot_header)).

Definition sizeof_field (f : field) : Z :=
  snd (lookup_field f (layout 0 linux_efi_zboot_header)).

(** The bytes of member [f] in the object representation [hdr]. *)
Definition member (f : field) (hdr : list byte) : list byte :=
  slice (offsetof f) (sizeof_field f) hdr.

(** The value of a [uint32_t] member, as the host reads it. *)
Definition member32 (host : byte_order) (f : field) (hdr : list byte) : Z :=
  load_uint32 host (member f hdr).

(** [memcmp(a, b, n)]: negative, zero or positive as the first [n] bytes of
    [a] are below, equal to or above those of [b]. *)
Fixpoint memcmp_nat (a b : list byte) (n : nat) {struct n} : Z :=
  match n with
  | O => 0
  | S n' =>
      match a, b with
      | x :: a', y :: b' =>
          if byte_to_Z x =? byte_to_Z y then memcmp_nat a' b' n'
          else byte_to_Z x - byte_to_Z y
      | _, _ => 0
      end
  end.

Definition memcmp (a b : list byte) (n : Z) : Z := memcmp_nat a b (Z.to_nat n).

(** The PE/COFF MS-DOS stub magic number ["MZ"]. *)
Definition EFI_PE_MSDOS_MAGIC : list byte := [x4d; x5a; x00].

(** The Linux header magic number ["\xcd\x23\x82\x81"]. *)
Definition EFI_PE_LINUX_MAGIC : list byte := [xcd; x23; x82; x81; x00].

(** The string literal ["zimg"]. *)
Definition ZIMG : list byte := [x7a; x69; x6d; x67; x00].

(* ------------------------------------------------------------------ *)
(** ** [printf] conversions *)

(** [%u] *)
Definition fmt_u (z : Z) : string :=
  NilZero.string_of_uint (N.to_uint (Z.to_N z)).

Fixpoint until_nul (bs : list byte) : list byte :=
  match bs with
  | [] => []
  | b :: bs' => if Byte.eqb b x00 then [] else b :: until_nul bs'
  end.

(** [%.*s] with precision [prec]: the characters before the first NUL, at
    most [prec] of them. *)
Definition fmt_s (prec : Z) (bs : list byte) : string :=
  string_of_list_byte (until_nul (firstn (Z.to_nat prec) bs)).

(* ------------------------------------------------------------------ *)
(** ** The environment of a run and [main] *)

Inductive open_result (A : Type) :=
| Opened (a : A)
| OpenFailed (e : errno).
Arguments Opened {A} a.
Arguments OpenFailed {A} e.

Record environment := mkEnv {
  env_host : byte_order;
  (* fopen(path, "r"): the bytes of the file and whether it can be positioned *)
  env_open_r : string -> open_result (list byte * bool);
  (* fopen(path, "w"): the number of bytes the device accepts *)
  env_open_w : string -> open_result Z;
  (* indeterminate initial content of the automatic objects *)
  env_header : list byte;
  env_buf : list byte;
  (* whether two paths name the same file *)
  env_same_file : string -> string -> bool
}.

Definition fopen_r (env : environment) (path : string) (p : proc)
  : option istream * proc :=
  match env_open_r env path with
  | Opened (data, seekable) => (Some (mkIn data 0 seekable), log (Efopen Fin true) p)
  | OpenFailed e => (None, set_errno e (log (Efopen Fin false) p))
  end.

(** What a stream that reads a file finds once the file has been truncated
    to length zero. *)
Definition truncate_reader (same : bool) (reader : istream) : istream :=
  if same then mkIn [] (i_pos reader) (i_seekable reader) else reader.

(** Mode ["w"] creates the file or truncates it to length zero.  [reader] is
    the stream that is open already, on the file that [rpath] names: when
    [path] names that same file, the truncation empties the file under the
    reader.  A failed open leaves the file as it was. *)
Definition fopen_w (env : environment) (path rpath : string) (reader : istream)
    (p : proc) : option ostream * istream * proc :=
  match env_open_w env path with
  | Opened room =>
      (Some (mkOut [] room),
       truncate_reader (env_same_file env rpath path) reader,
       log (Efopen Fout true) p)
  | OpenFailed e => (None, reader, set_errno e (log (Efopen Fout false) p))
  end.

Definition fclose (s : stream) (p : proc) : proc := log (Efclose s) p.

Definition EXIT_SUCCESS : Z := 0.
Definition EXIT_FAILURE : Z := 1.

(** What a run leaves behind: the exit status, the final state of the two
    streams (when they were opened) and the process state. *)
Record result := mkResult {
  r_status : Z;
  r_fin : option istream;
  r_fout : option ostream;
  r_proc : proc
}.

Definition is_null {A} (o : option A) : bool :=
  match o with None => true | Some _ => false end.

Definition main (fuel : nat) (env : environment) (argv : list string)
  : option result :=
  let argc := Zlength argv in
  let arg i := nth i argv EmptyString in
  let host := env_host env in
  let p := proc0 in
  if argc <? 2 then
    Some (mkResult EXIT_FAILURE None None
            (fprintf_stderr ("Usage: " ++ arg 0%nat ++ " <input> [<output>]" ++ nl) p))
  else
    let '(fin, p) := fopen_r env (arg 1%nat) p in
    match fin with
    | None =>
        Some (mkResult EXIT_FAILURE None None
                (fprintf_stderr ("Error opening " ++ arg 1%nat ++ ": "
                                 ++ strerror (p_errno p) ++ nl) p))
    | Some fin =>
        let '(fout, fin, p) :=
          if 2 <? argc then fopen_w env (arg 2%nat) (arg 1%nat) fin p
          else (None, fin, p) in
        if (2 <? argc) && is_null fout then
          let p := fclose Fin p in
          Some (mkResult EXIT_FAILURE (Some fin) None
                  (fprintf_stderr ("Error opening " ++ arg 2%nat ++ ": "
                                   ++ strerror (p_errno p) ++ nl) p))
        else
          let '(len, header, fin, p) :=
            fread (env_header env) sizeof_header 1 fin p in
          if negb (len =? 1) then
            let p := fclose Fin p in
            Some (mkResult EXIT_FAILURE (Some fin) fout
                    (fprintf_stderr ("Error reading EFI zboot header" ++ nl) p))
          else if negb (memcmp (member msdos_magic header) EFI_PE_MSDOS_MAGIC 2 =? 0)
                  || negb (memcmp (member zimg header) ZIMG 4 =? 0)
                  || negb (memcmp (member linux_magic header) EFI_PE_LINUX_MAGIC 4 =? 0)
          then
            Some (mkResult EXIT_FAILURE (Some fin) fout
                    (fprintf_stderr ("Error: input is not a kernel EFI image" ++ nl) p))
          else
            let header_payload_offset :=
              fixendian host (member32 host payload_offset header) in
            let header_payload_size :=
              fixendian host (member32 host payload_size header) in
            let header_pe_header_offset :=
              fixendian host (member32 host pe_header_offset header) in
            let p :=
              printf_stdout
                ("Compression:    "
                 ++ fmt_s (sizeof_field compression_type) (member compression_type header)
                 ++ nl ++
                 "Payload offset: " ++ fmt_u header_payload_offset ++ " Bytes" ++ nl ++
                 "Payload size:   " ++ fmt_u header_payload_size ++ " Bytes" ++ nl) p in
            match fout with
            | Some fo =>
                match copy_data fuel (env_buf env) fin fo
                        header_payload_offset header_payload_size p with
                | None => None
                | Some c =>
                    let p := fclose Fout (c_proc c) in
                    let p := fclose Fin p in
                    Some (mkResult EXIT_SUCCESS (Some (c_fin c)) (Some (c_fout c)) p)
                end
            | None =>
                let p := fclose Fin p in
                Some (mkResult EXIT_SUCCESS (Some fin) None p)
            end
    end.

(* ------------------------------------------------------------------ *)
(** ** Vocabulary: what a run of [copy_data] does *)

(** What the loop has done when it returns, by the statement it returns at.
    [n] is the number of bytes of the chunks that were both read and
    written. *)
Definition loop_outcome (fin : istream) (fout : ostream) (len : Z) (p : proc)
    (c : copy_result) (n : Z) : Prop :=
  let pos := i_pos fin in
  let data := i_data fin in
  match c_exit c with
  | ret_end =>
      n = len
      /\ (0 < len -> pos + len <= Zlength data)
      /\ i_pos (c_fin c) = pos + len
      /\ o_data (c_fout c) = o_data fout ++ slice pos len data
      /\ p_err (c_proc c) = p_err p
  | ret_read_error =>
      n < len /\ n mod sizeof_buf = 0
      /\ Zlength data < pos + n + MIN (len - n) sizeof_buf
      /\ o_data (c_fout c) = o_data fout ++ slice pos n data
      /\ p_err (c_proc c) = p_err p ++ [("Error reading data" ++ nl)%string]
  | ret_write_error =>
      n < len /\ n mod sizeof_buf = 0
      /\ pos + n + MIN (len - n) sizeof_buf <= Zlength data
      /\ o_room fout < n + MIN (len - n) sizeof_buf
      /\ p_err (c_proc c) = p_err p ++ [("Error writing data" ++ nl)%string]
  | ret_seek_error => False
  end.

(** The number of evaluations of the loop condition that a transfer of
    [len] bytes needs at most: one per chunk and the final one. *)
Definition loop_bound (len : Z) : Z := (len + sizeof_buf - 1) / sizeof_buf + 1.

(** Fuel that is enough for every payload size a header can declare. *)
Definition main_fuel : Z := loop_bound uint32_max.

Definition is_nil {A} (l : list A) : bool :=
  match l with [] => true | _ => false end.

(** The shape of the calls of the loop: every [fwrite] comes directly after
    a successful [fread] of the same size, between 1 and [sizeof(buf)]
    bytes; a failed [fread] or [fwrite] is the last call. *)
Fixpoint chunked (evs : list event) : bool :=
  match evs with
  | [] => true
  | Efread size 1 true :: Efwrite size' 1 ok :: evs' =>
      (size =? size') && (0 <? size) && (size <=? sizeof_buf)
      && (if ok then chunked evs' else is_nil evs')
  | [Efread size 1 false] => (0 <? size) && (size <=? sizeof_buf)
  | _ => false
  end.

Definition seek_ok (fin : istream) (offset : Z) : bool :=
  i_seekable fin && (0 <=? offset).

(* ------------------------------------------------------------------ *)
(** ** Vocabulary: the header and the runs of [main] *)

(** The three magic numbers, at the places where the struct has them. *)
Definition has_msdos_magic (data : list byte) : Prop :=
  slice (offsetof msdos_magic) 2 data = [x4d; x5a].

Definition has_zimg_magic (data : list byte) : Prop :=
  slice (offsetof zimg) 4 data = [x7a; x69; x6d; x67].

Definition has_linux_magic (data : list byte) : Prop :=
  slice (offsetof linux_magic) 4 data = [xcd; x23; x82; x81].

(** The byte offsets that lie in one of the three magic members. *)
Definition in_magic (i : Z) : Prop :=
  offsetof msdos_magic <= i < offsetof msdos_magic + 2
  \/ offsetof zimg <= i < offsetof zimg + 4
  \/ offsetof linux_magic <= i < offsetof linux_magic + 4.

(** [data] with the byte at offset [i] replaced by [b]. *)
Definition alter (i : Z) (b : byte) (data : list byte) : list byte :=
  firstn (Z.to_nat i) data ++ b :: skipn (S (Z.to_nat i)) data.

(** The condition of the [if] at lines 104-106. *)
Definition magic_mismatch (header : list byte) : bool :=
  negb (memcmp (member msdos_magic header) EFI_PE_MSDOS_MAGIC 2 =? 0)
  || negb (memcmp (member zimg header) ZIMG 4 =? 0)
  || negb (memcmp (member linux_magic header) EFI_PE_LINUX_MAGIC 4 =? 0).

(** What the input stream delivers once the streams are open, for an input
    file of content [data0]: nothing when an output is named and it is the
    input file itself, which opening it for writing has truncated, and
    [data0] otherwise. *)
Definition delivered (env : environment) (argv : list string)
    (data0 : list byte) : list byte :=
  if (2 <? Zlength argv)
     && env_same_file env (nth 1%nat argv EmptyString) (nth 2%nat argv EmptyString)
  then [] else data0.

(** The input file named by [argv[1]] opens, and so does the output file
    named by [argv[2]] when there is one; [data] is what the input stream
    delivers from then on. *)
Definition opens (env : environment) (argv : list string)
    (data : list byte) (seekable : bool) : Prop :=
  2 <= Zlength argv
  /\ (exists data0,
        env_open_r env (nth 1%nat argv EmptyString) = Opened (data0, seekable)
        /\ data = delivered env argv data0)
  /\ (2 < Zlength argv ->
      exists room, env_open_w env (nth 2%nat argv EmptyString) = Opened room).

(** The calls that open the streams. *)
Definition open_events (argv : list string) : list event :=
  Efopen Fin true :: (if 2 <? Zlength argv then [Efopen Fout true] else []).

(** The header as [fread] leaves it in the struct. *)
Definition header_of (env : environment) (data : list byte) : list byte :=
  slice 0 sizeof_header data ++ skipn (Z.to_nat sizeof_header) (env_header env).

(** The report that [main] prints on stdout for a header. *)
Definition report (host : byte_order) (data : list byte) : string :=
  ("Compression:    "
   ++ fmt_s (sizeof_field compression_type) (slice (offsetof compression_type) 32 data)
   ++ nl ++
   "Payload offset: " ++ fmt_u (decode host (slice (offsetof payload_offset) 4 data))
   ++ " Bytes" ++ nl ++
   "Payload size:   " ++ fmt_u (decode host (slice (offsetof payload_size) 4 data))
   ++ " Bytes" ++ nl)%string.

(* ------------------------------------------------------------------ *)
(** ** Sample inputs *)

(** A well-formed header: the magic numbers, a payload at [off] of [sz]
    bytes, compression type "gzip", PE header at 128. *)
Definition sample_header (off sz : Z) : list byte :=
  [x4d; x5a] ++ [x00; x00] ++ [x7a; x69; x6d; x67]
  ++ encode_le off ++ encode_le sz ++ repeat x00 8
  ++ [x67; x7a; x69; x70] ++ repeat x00 28
  ++ [xcd; x23; x82; x81] ++ encode_le 128.

Definition sample_env (host : byte_order) (data : list byte) (seekable : bool)
    (room : Z) : environment :=
  mkEnv host (fun _ => Opened (data, seekable)) (fun _ => Opened room)
    (repeat xff 64) (repeat xee (Z.to_nat sizeof_buf)) String.eqb.

Definition sample_argv : list string :=
  ["efiextract"; "vmlinuz.efi"; "payload.gz"]%string.

(** [n] bytes that count up from 0 and wrap at 256. *)
Fixpoint ramp_from (i : Z) (n : nat) : list byte :=
  match n with
  | O => []
  | S n' => byte_of_Z i :: ramp_from (i + 1) n'
  end.

Definition ramp (n : Z) : list byte := ramp_from 0 (Z.to_nat n).

(** The sample image with "MZ" altered to "MX". *)
Definition mx_image : list byte :=
  alter 1 x58 (sample_header 64 4 ++ [xaa; xbb; xcc; xdd]).

(* ------------------------------------------------------------------ *)
(** ** Vocabulary of the further properties *)

(** The calls of a transfer of [len] bytes in which nothing fails: a read
    and a write of [sizeof(buf)] bytes for every whole chunk, then a read
    and a write of the remainder when there is one. *)
Definition transfer_events (len : Z) : list event :=
  List.concat (repeat [Efread sizeof_buf 1 true; Efwrite sizeof_buf 1 true]
            (Z.to_nat (len / sizeof_buf)))
  ++ (if len mod sizeof_buf =? 0 then []
      else [Efread (len mod sizeof_buf) 1 true; Efwrite (len mod sizeof_buf) 1 true]).

(** The payload range that a header declares. *)
Definition payload_offset_of (host : byte_order) (data : list byte) : Z :=
  decode host (slice (offsetof payload_offset) 4 data).

Definition payload_size_of (host : byte_order) (data : list byte) : Z :=
  decode host (slice (offsetof payload_size) 4 data).

(** The sample image: the sample header and four bytes of payload. *)
Definition sample_image : list byte :=
  sample_header 64 4 ++ [xaa; xbb; xcc; xdd].

(** An environment in which the input is missing, and one in which the
    output cannot be created. *)
Definition env_no_input : environment :=
  mkEnv LittleEndian (fun _ => OpenFailed ENOENT) (fun _ => Opened 100) [] []
    String.eqb.

Definition env_no_output : environment :=
  mkEnv LittleEndian (fun _ => Opened (sample_image, true))
    (fun _ => OpenFailed EACCES) [] [] String.eqb.

(** * Part II: proofs *)

(* ------------------------------------------------------------------ *)
(** ** Bytes and machine integers *)

Lemma byte_to_Z_range (b : byte) : 0 <= byte_to_Z b < 256.
Proof.
  unfold byte_to_Z. pose proof (Byte.to_N_bounded b). lia.
Qed.

Lemma byte_to_of_Z (z : Z) : byte_to_Z (byte_of_Z z) = z mod 256.
Proof.
  unfold byte_to_Z, byte_of_Z.
  assert (Hr : 0 <= z mod 256 < 256) by (apply Z.mod_pos_bound; lia).
  destruct (Byte.of_N (Z.to_N (z mod 256))) as [b|] eqn:E.
  - apply Byte.to_of_N in E. rewrite E. lia.
  - apply Byte.of_N_None_iff in E. lia.
Qed.

Lemma byte_of_to_Z (b : byte) : byte_of_Z (byte_to_Z b) = b.
Proof.
  unfold byte_of_Z. rewrite Z.mod_small by apply byte_to_Z_range.
  unfold byte_to_Z. rewrite N2Z.id, Byte.of_to_N. reflexivity.
Qed.

Lemma testbit_mod_pow2 (a n i : Z) :
  0 <= n -> Z.testbit (a mod 2 ^ n) i = (i <? n) && Z.testbit a i.
Proof.
  intros Hn. destruct (Z.ltb_spec i n).
  - rewrite Z.mod_pow2_bits_low by lia. reflexivity.
  - rewrite Z.mod_pow2_bits_high by lia. reflexivity.
Qed.

Lemma testbit_ones_8 (i : Z) :
  Z.testbit (Z.ones 8) i = negb (i <? 0) && (i <? 8).
Proof.
  destruct (Z.ltb_spec i 0); cbn [negb andb].
  - apply Z.testbit_neg_r. lia.
  - destruct (Z.ltb_spec i 8).
    + apply Z.ones_spec_low. lia.
    + apply Z.ones_spec_high. lia.
Qed.

Lemma testbit_shiftl (a n m : Z) :
  Z.testbit (Z.shiftl a n) m = negb (m <? 0) && Z.testbit a (m - n).
Proof.
  destruct (Z.ltb_spec m 0); cbn [negb andb].
  - apply Z.testbit_neg_r. lia.
  - apply Z.shiftl_spec. lia.
Qed.

Lemma testbit_shiftr (a n m : Z) :
  Z.testbit (Z.shiftr a n) m = negb (m <? 0) && Z.testbit a (m + n).
Proof.
  destruct (Z.ltb_spec m 0); cbn [negb andb].
  - apply Z.testbit_neg_r. lia.
  - apply Z.shiftr_spec. lia.
Qed.

(** Bit-level reasoning on byte-sliced words: push [Z.testbit] through the
    operators, decide every comparison of the index by [lia], and bring the
    indices of the remaining bits to a common form. *)
Ltac push_testbit :=
  repeat first
    [ rewrite Z.lor_spec
    | rewrite Z.land_spec
    | rewrite testbit_mod_pow2 by lia
    | rewrite testbit_shiftl
    | rewrite testbit_shiftr
    | rewrite testbit_ones_8 ].

Ltac decide_ltb :=
  repeat match goal with
    | |- context [ ?a <? ?b ] =>
        first [ rewrite (proj2 (Z.ltb_lt a b)) by lia
              | rewrite (proj2 (Z.ltb_ge a b)) by lia ]
    end.

Ltac drop_neg_bits :=
  repeat match goal with
    | |- context [ Z.testbit ?a ?j ] =>
        rewrite (Z.testbit_neg_r a j) by lia
    end.

Ltac norm_index i :=
  repeat match goal with
    | |- context [ Z.testbit ?a ?j ] =>
        lazymatch j with
        | i => fail
        | _ => replace j with i by lia
        end
    end.

Ltac byte_bits i :=
  push_testbit; decide_ltb; cbn [andb orb negb]; drop_neg_bits;
  norm_index i;
  rewrite ?andb_true_r, ?andb_false_r, ?orb_false_r, ?orb_false_l;
  cbn [andb orb negb]; try reflexivity.

Lemma load_encode_le (host : byte_order) (x : Z) :
  0 <= x < 2 ^ 32 -> decode host (encode_le x) = x.
Proof.
  intros Hx.
  assert (Hhi : forall i, 32 <= i -> Z.testbit x i = false).
  { intros i Hi. rewrite <- (Z.mod_small x (2 ^ 32)) by exact Hx.
    apply Z.mod_pow2_bits_high. lia. }
  unfold decode, fixendian, le32toh, encode_le, load_uint32.
  rewrite !byte_to_of_Z.
  change 256 with (2 ^ 8).
  destruct host.
  - apply Z.bits_inj'; intros i Hi.
    destruct (Z.lt_ge_cases i 8); [byte_bits i|].
    destruct (Z.lt_ge_cases i 16); [byte_bits i|].
    destruct (Z.lt_ge_cases i 24); [byte_bits i|].
    destruct (Z.lt_ge_cases i 32); [byte_bits i|].
    byte_bits i. rewrite Hhi by lia. reflexivity.
  - unfold bswap_32, uint32.
    change 4278190080 with (Z.shiftl (Z.ones 8) 24).
    change 16711680 with (Z.shiftl (Z.ones 8) 16).
    change 65280 with (Z.shiftl (Z.ones 8) 8).
    change 255 with (Z.ones 8).
    apply Z.bits_inj'; intros i Hi.
    destruct (Z.lt_ge_cases i 8); [byte_bits i|].
    destruct (Z.lt_ge_cases i 16); [byte_bits i|].
    destruct (Z.lt_ge_cases i 24); [byte_bits i|].
    destruct (Z.lt_ge_cases i 32); [byte_bits i|].
    byte_bits i. rewrite Hhi by lia. reflexivity.
Qed.

(* ------------------------------------------------------------------ *)
(** ** Lists and slices *)

Lemma Zlength_nonneg {A} (l : list A) : 0 <= Zlength l.
Proof. unfold Zlength. lia. Qed.

Lemma Zlength_app {A} (l1 l2 : list A) :
  Zlength (l1 ++ l2) = Zlength l1 + Zlength l2.
Proof. unfold Zlength. rewrite length_app. lia. Qed.

Lemma firstn_plus {A} (a b : nat) (l : list A) :
  firstn (a + b) l = firstn a l ++ firstn b (skipn a l).
Proof.
  revert l. induction a as [|a IH]; intros l; [reflexivity|].
  destruct l as [|x l]; cbn [Nat.add firstn skipn app].
  - now rewrite firstn_nil.
  - now rewrite IH.
Qed.

Lemma firstn_exact {A} (n : nat) (l r : list A) :
  List.length l = n -> firstn n (l ++ r) = l.
Proof.
  intros <-. rewrite firstn_app, Nat.sub_diag, firstn_all. cbn [firstn].
  apply app_nil_r.
Qed.

Lemma slice_length {A} (off n : Z) (l : list A) :
  0 <= off -> 0 <= n -> off + n <= Zlength l ->
  List.length (slice off n l) = Z.to_nat n.
Proof.
  unfold slice, Zlength. intros Ho Hn Hl.
  rewrite length_firstn, length_skipn. lia.
Qed.

Lemma slice_zero {A} (off : Z) (l : list A) : slice off 0 l = [].
Proof. reflexivity. Qed.

Lemma slice_plus {A} (off a b : Z) (l : list A) :
  0 <= off -> 0 <= a -> 0 <= b ->
  slice off (a + b) l = slice off a l ++ slice (off + a) b l.
Proof.
  unfold slice. intros Ho Ha Hb.
  rewrite Z2Nat.inj_add by lia. rewrite firstn_plus, skipn_skipn.
  rewrite (Z2Nat.inj_add off a) by lia.
  now rewrite (Nat.add_comm (Z.to_nat a)).
Qed.

Lemma slice_prefix {A} (off n m : Z) (l r : list A) :
  0 <= off -> 0 <= n -> off + n <= m -> m <= Zlength l ->
  slice off n (slice 0 m l ++ r) = slice off n l.
Proof.
  unfold slice, Zlength. intros Ho Hn Hm Hl.
  cbn [Z.to_nat skipn].
  rewrite skipn_app, firstn_app.
  rewrite length_skipn, length_firstn.
  replace (Z.to_nat n - (Nat.min (Z.to_nat m) (List.length l) - Z.to_nat off))%nat
    with 0%nat by lia.
  cbn [firstn]. rewrite app_nil_r.
  rewrite skipn_firstn_comm, firstn_firstn.
  f_equal. lia.
Qed.

Lemma slice_nth {A} (off n i : Z) (l : list A) (d : A) :
  0 <= off -> off <= i < off + n ->
  nth (Z.to_nat (i - off)) (slice off n l) d = nth (Z.to_nat i) l d.
Proof.
  intros Ho Hi. unfold slice. rewrite nth_firstn, nth_skipn.
  replace (Z.to_nat (i - off) <? Z.to_nat n)%nat with true
    by (symmetry; apply Nat.ltb_lt; lia).
  f_equal. lia.
Qed.

Lemma slice_eq_nth {A} (off n i : Z) (l l' : list A) (d : A) :
  0 <= off -> off <= i < off + n ->
  slice off n l = slice off n l' ->
  nth (Z.to_nat i) l d = nth (Z.to_nat i) l' d.
Proof.
  intros Ho Hi E.
  rewrite <- (slice_nth off n i l d), <- (slice_nth off n i l' d) by lia.
  now rewrite E.
Qed.

Lemma alter_nth (i : Z) (b d : byte) (data : list byte) :
  0 <= i < Zlength data -> nth (Z.to_nat i) (alter i b data) d = b.
Proof.
  unfold Zlength, alter. intros Hi.
  assert (E : List.length (firstn (Z.to_nat i) data) = Z.to_nat i)
    by (rewrite length_firstn; lia).
  rewrite <- E at 1. apply nth_middle.
Qed.

Lemma alter_length (i : Z) (b : byte) (data : list byte) :
  0 <= i < Zlength data -> Zlength (alter i b data) = Zlength data.
Proof.
  unfold Zlength, alter. intros Hi.
  rewrite length_app, length_firstn. cbn [List.length]. rewrite length_skipn. lia.
Qed.

(* ------------------------------------------------------------------ *)
(** ** The C library calls of [copy_data] *)

Lemma MIN_spec (a b : Z) : MIN a b = Z.min a b.
Proof. unfold MIN. destruct (Z.ltb_spec a b); lia. Qed.

Lemma size_t_small (z : Z) : 0 <= z < 2 ^ 64 -> size_t z = z.
Proof. intros H. unfold size_t. now apply Z.mod_small. Qed.

Lemma fread_full (obj : list byte) (size : Z) (s : istream) (p : proc) :
  0 < size -> 0 <= i_pos s -> i_pos s + size <= Zlength (i_data s) ->
  fread obj size 1 s p =
    (1,
     slice (i_pos s) size (i_data s) ++ skipn (Z.to_nat size) obj,
     mkIn (i_data s) (i_pos s + size) (i_seekable s),
     log (Efread size 1 true) p).
Proof.
  intros Hs Hp Hl. unfold fread.
  replace (Z.max 0 (Z.min (size * 1) (Z.max 0 (Zlength (i_data s) - i_pos s))))
    with size by lia.
  rewrite Z.div_same by lia.
  rewrite slice_length by lia. reflexivity.
Qed.

Lemma fread_short (obj : list byte) (size : Z) (s : istream) (p : proc) :
  0 < size -> Zlength (i_data s) < i_pos s + size ->
  exists obj' s',
    fread obj size 1 s p = (0, obj', s', log (Efread size 1 false) p)
    /\ i_data s' = i_data s.
Proof.
  intros Hs Hl. unfold fread.
  set (n := Z.max 0 (Z.min (size * 1) (Z.max 0 (Zlength (i_data s) - i_pos s)))).
  assert (Hn : 0 <= n < size) by lia.
  rewrite (Z.div_small n size) by exact Hn.
  eexists; eexists; split; reflexivity.
Qed.

Lemma fwrite_full (obj : list byte) (size : Z) (s : ostream) (p : proc) :
  0 < size -> size <= o_room s ->
  fwrite obj size 1 s p =
    (1,
     mkOut (o_data s ++ firstn (Z.to_nat size) obj) (o_room s - size),
     log (Efwrite size 1 true) p).
Proof.
  intros Hs Hr. unfold fwrite.
  replace (Z.max 0 (Z.min (size * 1) (o_room s))) with size by lia.
  rewrite Z.div_same by lia. reflexivity.
Qed.

Lemma fwrite_short (obj : list byte) (size : Z) (s : ostream) (p : proc) :
  0 < size -> o_room s < size ->
  exists s',
    fwrite obj size 1 s p =
      (0, s', set_errno ENOSPC (log (Efwrite size 1 false) p)).
Proof.
  intros Hs Hr. unfold fwrite.
  set (n := Z.max 0 (Z.min (size * 1) (o_room s))).
  assert (Hn : 0 <= n < size) by lia.
  rewrite (Z.div_small n size) by exact Hn.
  eexists; reflexivity.
Qed.

(** The chunk that one iteration of the loop transfers. *)
Lemma chunk_bounds (len : Z) :
  0 < len < 2 ^ 64 ->
  0 < MIN len sizeof_buf <= len
  /\ MIN len sizeof_buf <= sizeof_buf
  /\ 0 <= size_t (len - MIN len sizeof_buf) < len.
Proof.
  intros H. rewrite MIN_spec. unfold sizeof_buf.
  rewrite size_t_small by lia. lia.
Qed.

Lemma div_chunk_step (len : Z) :
  sizeof_buf <= len -> (len - sizeof_buf) / sizeof_buf = len / sizeof_buf - 1.
Proof.
  intros H. unfold sizeof_buf in *.
  replace (len - 16384) with (len + (-1) * 16384) by lia.
  rewrite Z.div_add by lia. lia.
Qed.

(** One unfolding of the loop, for a chunk that is read and written. *)
Lemma copy_loop_step (fuel : nat) (buf : list byte) (fin : istream)
    (fout : ostream) (len : Z) (p : proc) :
  0 < len < 2 ^ 64 -> 0 <= i_pos fin ->
  i_pos fin + MIN len sizeof_buf <= Zlength (i_data fin) ->
  MIN len sizeof_buf <= o_room fout ->
  let size := MIN len sizeof_buf in
  let chunk := slice (i_pos fin) size (i_data fin) in
  copy_loop (S fuel) buf fin fout len p =
  copy_loop fuel (chunk ++ skipn (Z.to_nat size) buf)
    (mkIn (i_data fin) (i_pos fin + size) (i_seekable fin))
    (mkOut (o_data fout ++ chunk) (o_room fout - size))
    (len - size)
    (log (Efwrite size 1 true) (log (Efread size 1 true) p)).
Proof.
  intros Hlen Hpos Hin Hroom size chunk.
  destruct (chunk_bounds len Hlen) as (Hsz & Hsz' & Hrest).
  fold size in Hsz, Hsz', Hrest, Hin, Hroom.
  cbn [copy_loop].
  replace (len =? 0) with false by (symmetry; apply Z.eqb_neq; lia).
  fold size.
  rewrite fread_full by lia. cbn [Z.eqb Pos.eqb negb].
  rewrite fwrite_full by (cbn [o_room]; lia). cbn [Z.eqb Pos.eqb negb].
  cbn [o_data o_room].
  rewrite firstn_exact by (apply slice_length; lia).
  rewrite size_t_small by (rewrite size_t_small in Hrest; lia).
  reflexivity.
Qed.

Lemma copy_loop_spec (fuel : nat) :
  forall buf fin fout len p c,
    0 <= len < 2 ^ 64 -> 0 <= i_pos fin ->
    copy_loop fuel buf fin fout len p = Some c ->
    exists n,
      0 <= n <= len
      /\ i_data (c_fin c) = i_data fin
      /\ p_out (c_proc c) = p_out p
      /\ loop_outcome fin fout len p c n.
Proof.
  induction fuel as [|fuel IH]; intros buf fin fout len p c Hlen Hpos Hrun;
    [discriminate|].
  destruct (Z.eq_dec len 0) as [->|Hnz].
  { (* the loop condition is false *)
    cbn in Hrun. injection Hrun as <-. exists 0. unfold loop_outcome.
    cbn [c_exit c_fin c_fout c_proc]. rewrite slice_zero, app_nil_r.
    repeat split; lia. }
  assert (Hlen' : 0 < len < 2 ^ 64) by lia.
  destruct (chunk_bounds len Hlen') as (Hsz & Hsz' & Hrest).
  rewrite size_t_small in Hrest by lia.
  destruct (Z_lt_le_dec (Zlength (i_data fin)) (i_pos fin + MIN len sizeof_buf))
    as [Hshort|Hin].
  { (* the read is short *)
    cbn [copy_loop] in Hrun.
    replace (len =? 0) with false in Hrun by (symmetry; apply Z.eqb_neq; lia).
    destruct (fread_short buf (MIN len sizeof_buf) fin p) as (o' & s' & E & Hd);
      [lia | lia |].
    rewrite E in Hrun. cbn [Z.eqb negb] in Hrun. injection Hrun as <-.
    exists 0. unfold loop_outcome. cbn [c_exit c_fin c_fout c_proc].
    rewrite slice_zero, app_nil_r, !Z.add_0_r, !Z.sub_0_r.
    repeat split; try lia; try assumption; reflexivity. }
  destruct (Z_lt_le_dec (o_room fout) (MIN len sizeof_buf)) as [Hfull|Hroom].
  { (* the write is short *)
    cbn [copy_loop] in Hrun.
    replace (len =? 0) with false in Hrun by (symmetry; apply Z.eqb_neq; lia).
    rewrite fread_full in Hrun by lia. cbn [Z.eqb Pos.eqb negb] in Hrun.
    match type of Hrun with
    | context [fwrite ?o ?sz 1 ?s ?q] =>
        destruct (fwrite_short o sz s q) as (s' & E); [lia | lia |]
    end.
    rewrite E in Hrun. cbn [Z.eqb negb] in Hrun. injection Hrun as <-.
    exists 0. unfold loop_outcome. cbn [c_exit c_fin c_fout c_proc].
    rewrite !Z.add_0_r, !Z.sub_0_r.
    repeat split; try lia; try assumption; reflexivity. }
  (* the chunk is transferred and the loop goes on *)
  rewrite copy_loop_step in Hrun by lia.
  apply IH in Hrun; [|lia|cbn [i_pos]; lia].
  destruct Hrun as (n & Hn & Hdata & Hout & Hcase).
  exists (MIN len sizeof_buf + n).
  cbn [i_data] in Hdata. cbn [p_out log] in Hout.
  split; [lia|]. split; [exact Hdata|]. split; [exact Hout|].
  unfold loop_outcome in *. cbn [i_pos i_data o_data o_room p_err log] in Hcase.
  destruct (c_exit c).
  - exact Hcase.
  - destruct Hcase as (Hlt & Hmod & Hend & Hsink & Herr).
    assert (Hsize : MIN len sizeof_buf = sizeof_buf)
      by (rewrite MIN_spec in *; lia).
    replace (len - (MIN len sizeof_buf + n)) with (len - MIN len sizeof_buf - n)
      by lia.
    split; [lia|]. split.
    { rewrite Hsize. unfold sizeof_buf in *.
      replace (16384 + n) with (n + 1 * 16384) by lia.
      rewrite Z.mod_add by lia. exact Hmod. }
    split; [lia|]. split; [|exact Herr].
    rewrite Hsink, <- app_assoc, <- slice_plus by lia. reflexivity.
  - destruct Hcase as (Hlt & Hmod & Hend & Hfull & Herr).
    assert (Hsize : MIN len sizeof_buf = sizeof_buf)
      by (rewrite MIN_spec in *; lia).
    replace (len - (MIN len sizeof_buf + n)) with (len - MIN len sizeof_buf - n)
      by lia.
    split; [lia|]. split.
    { rewrite Hsize. unfold sizeof_buf in *.
      replace (16384 + n) with (n + 1 * 16384) by lia.
      rewrite Z.mod_add by lia. exact Hmod. }
    split; [lia|]. split; [lia|exact Herr].
  - destruct Hcase as (Hn' & Hend & Hpos' & Hsink & Herr).
    split; [lia|]. split; [lia|]. split; [lia|]. split; [|exact Herr].
    rewrite Hsink, <- app_assoc, <- slice_plus by lia.
    f_equal. f_equal. lia.
Qed.

Lemma loop_bound_pos (len : Z) : 0 <= len -> 1 <= loop_bound len.
Proof.
  intros H. unfold loop_bound, sizeof_buf.
  assert (0 <= (len + 16384 - 1) / 16384) by (apply Z.div_pos; lia). lia.
Qed.

Lemma loop_bound_step (len : Z) :
  0 < len ->
  loop_bound (len - MIN len sizeof_buf) <= loop_bound len - 1.
Proof.
  intros H. rewrite MIN_spec. unfold loop_bound, sizeof_buf.
  destruct (Z_lt_le_dec len 16384) as [Hs|Hb].
  - replace (len - Z.min len 16384) with 0 by lia.
    change ((0 + 16384 - 1) / 16384) with 0.
    assert (1 <= (len + 16384 - 1) / 16384)
      by (apply Z.div_le_lower_bound; lia).
    lia.
  - replace (len - Z.min len 16384 + 16384 - 1)
      with (len + 16384 - 1 + (-1) * 16384) by lia.
    rewrite Z.div_add by lia. lia.
Qed.

Lemma copy_loop_returns (fuel : nat) :
  forall buf fin fout len p,
    0 <= len < 2 ^ 64 -> loop_bound len <= Z.of_nat fuel ->
    exists c, copy_loop fuel buf fin fout len p = Some c.
Proof.
  induction fuel as [|fuel IH]; intros buf fin fout len p Hlen Hfuel.
  { pose proof (loop_bound_pos len). lia. }
  cbn [copy_loop].
  destruct (Z.eqb_spec len 0) as [->|Hnz]; [eexists; reflexivity|].
  assert (Hlen' : 0 < len < 2 ^ 64) by lia.
  destruct (chunk_bounds len Hlen') as (Hsz & Hsz' & Hrest).
  destruct (fread buf (MIN len sizeof_buf) 1 fin p) as [[[r buf1] fin1] p1].
  destruct (negb (r =? 1)); [eexists; reflexivity|].
  destruct (fwrite buf1 (MIN len sizeof_buf) 1 fout p1) as [[w fout1] p2].
  destruct (negb (w =? 1)); [eexists; reflexivity|].
  apply IH; [lia|].
  rewrite size_t_small by lia.
  pose proof (loop_bound_step len). lia.
Qed.

Lemma copy_loop_more_fuel (fuel : nat) :
  forall fuel' buf fin fout len p c,
    copy_loop fuel buf fin fout len p = Some c ->
    (fuel <= fuel')%nat ->
    copy_loop fuel' buf fin fout len p = Some c.
Proof.
  induction fuel as [|fuel IH]; intros fuel' buf fin fout len p c Hrun Hle;
    [discriminate|].
  destruct fuel' as [|fuel']; [lia|].
  cbn [copy_loop] in *.
  destruct (len =? 0); [exact Hrun|].
  destruct (fread buf (MIN len sizeof_buf) 1 fin p) as [[[r buf1] fin1] p1].
  destruct (negb (r =? 1)); [exact Hrun|].
  destruct (fwrite buf1 (MIN len sizeof_buf) 1 fout p1) as [[w fout1] p2].
  destruct (negb (w =? 1)); [exact Hrun|].
  apply IH; [exact Hrun|lia].
Qed.

(* ------------------------------------------------------------------ *)
(** ** The calls that the loop makes *)

Lemma copy_loop_trace (fuel : nat) :
  forall buf fin fout len p c,
    0 <= len < 2 ^ 64 ->
    copy_loop fuel buf fin fout len p = Some c ->
    exists evs, p_trace (c_proc c) = p_trace p ++ evs /\ chunked evs = true.
Proof.
  induction fuel as [|fuel IH]; intros buf fin fout len p c Hlen Hrun;
    [discriminate|].
  cbn [copy_loop] in Hrun.
  destruct (Z.eqb_spec len 0) as [->|Hnz].
  { injection Hrun as <-. exists []. cbn. now rewrite app_nil_r. }
  assert (Hlen' : 0 < len < 2 ^ 64) by lia.
  destruct (chunk_bounds len Hlen') as (Hsz & Hsz' & Hrest).
  set (size := MIN len sizeof_buf) in *.
  assert (Hb : (0 <? size) && (size <=? sizeof_buf) = true).
  { apply andb_true_intro. split; [apply Z.ltb_lt | apply Z.leb_le]; lia. }
  unfold fread in Hrun.
  match type of Hrun with
  | context [ ?a / size =? 1 ] => set (r := a / size) in *
  end.
  destruct (r =? 1) eqn:Er; cbn [negb] in Hrun.
  2: { injection Hrun as <-. exists [Efread size 1 false].
       cbn [c_proc fprintf_stderr log p_trace chunked]. now split. }
  unfold fwrite in Hrun.
  match type of Hrun with
  | context [ ?a / size =? 1 ] => set (w := a / size) in *
  end.
  destruct (w =? 1) eqn:Ew; cbn [negb] in Hrun.
  2: { injection Hrun as <-. exists [Efread size 1 true; Efwrite size 1 false].
       cbn [c_proc fprintf_stderr set_errno log p_trace chunked is_nil].
       rewrite <- app_assoc. split; [reflexivity|].
       rewrite Z.eqb_refl. cbn [andb]. now rewrite Hb. }
  apply IH in Hrun; [|lia].
  destruct Hrun as (evs & Htr & Hch).
  exists (Efread size 1 true :: Efwrite size 1 true :: evs).
  rewrite Htr. cbn [log p_trace]. rewrite <- !app_assoc. split; [reflexivity|].
  cbn [chunked]. rewrite Z.eqb_refl, Hch. cbn [andb]. now rewrite Hb.
Qed.

(* ------------------------------------------------------------------ *)
(** ** [copy_data] as a whole *)

Lemma fseek_spec (fin : istream) (offset : Z) (p : proc) :
  (seek_ok fin offset = true
   /\ fseek fin offset p =
        (0, mkIn (i_data fin) offset (i_seekable fin), log (Efseek offset true) p))
  \/
  (seek_ok fin offset = false
   /\ exists e, fseek fin offset p = (-1, fin, set_errno e (log (Efseek offset false) p))).
Proof.
  unfold seek_ok, fseek. destruct (i_seekable fin); cbn [negb andb].
  - destruct (Z.ltb_spec offset 0).
    + right. split; [apply Z.leb_gt; lia | eexists; reflexivity].
    + left. split; [apply Z.leb_le; lia | reflexivity].
  - right. split; [reflexivity | eexists; reflexivity].
Qed.

Lemma copy_data_seek_ok fuel buf fin fout offset len p :
  seek_ok fin offset = true ->
  copy_data fuel buf fin fout offset len p =
  copy_loop fuel buf (mkIn (i_data fin) offset (i_seekable fin)) fout len
    (log (Efseek offset true) p).
Proof.
  intros H. unfold copy_data.
  destruct (fseek_spec fin offset p) as [(_ & ->)|(H' & _)]; [reflexivity|congruence].
Qed.

Lemma copy_data_seek_fail fuel buf fin fout offset len p :
  seek_ok fin offset = false ->
  exists e,
    copy_data fuel buf fin fout offset len p =
    Some (mkCopy ret_seek_error fin fout
            (fprintf_stderr ("Error seeking data: " ++ strerror e)
               (set_errno e (log (Efseek offset false) p)))).
Proof.
  intros H. unfold copy_data.
  destruct (fseek_spec fin offset p) as [(H' & _)|(_ & e & ->)]; [congruence|].
  exists e. reflexivity.
Qed.

(* ------------------------------------------------------------------ *)
(** ** The header checks of [main] *)

Lemma byte_to_Z_inj (x y : byte) : byte_to_Z x = byte_to_Z y -> x = y.
Proof.
  intros H. rewrite <- (byte_of_to_Z x), <- (byte_of_to_Z y). now rewrite H.
Qed.

Lemma memcmp_nat_zero (n : nat) :
  forall a b, (n <= List.length a)%nat -> (n <= List.length b)%nat ->
    (memcmp_nat a b n = 0 <-> firstn n a = firstn n b).
Proof.
  induction n as [|n IH]; intros a b Ha Hb; cbn [memcmp_nat firstn].
  - split; reflexivity.
  - destruct a as [|x a]; [cbn in Ha; lia|].
    destruct b as [|y b]; [cbn in Hb; lia|].
    cbn [List.length] in Ha, Hb.
    destruct (Z.eqb_spec (byte_to_Z x) (byte_to_Z y)) as [E|E].
    + apply byte_to_Z_inj in E. subst y.
      rewrite IH by lia. split; [intros ->; reflexivity | now intros [= ->]].
    + split; [lia|]. intros [= -> _]. congruence.
Qed.

Lemma memcmp_member (f : field) (n : Z) (hdr lit : list byte) :
  0 <= n -> n <= sizeof_field f -> 0 <= offsetof f ->
  offsetof f + sizeof_field f <= Zlength hdr ->
  n <= Zlength lit ->
  (memcmp (member f hdr) lit n = 0 <->
   slice (offsetof f) n hdr = firstn (Z.to_nat n) lit).
Proof.
  intros Hn Hsz Ho Hl Hlit. unfold memcmp, member.
  rewrite memcmp_nat_zero.
  - unfold slice. rewrite firstn_firstn.
    replace (Nat.min (Z.to_nat n) (Z.to_nat (sizeof_field f))) with (Z.to_nat n)
      by lia.
    reflexivity.
  - rewrite slice_length by lia. lia.
  - unfold Zlength in Hlit. lia.
Qed.

Lemma magic_mismatch_false (hdr : list byte) :
  sizeof_header <= Zlength hdr ->
  (magic_mismatch hdr = false <->
   has_msdos_magic hdr /\ has_zimg_magic hdr /\ has_linux_magic hdr).
Proof.
  intros Hl. change sizeof_header with 64 in Hl.
  unfold magic_mismatch, has_msdos_magic, has_zimg_magic, has_linux_magic.
  rewrite !orb_false_iff, !negb_false_iff, !Z.eqb_eq.
  rewrite (memcmp_member msdos_magic 2), (memcmp_member zimg 4),
    (memcmp_member linux_magic 4);
    try (vm_compute; congruence);
    try (change (offsetof msdos_magic) with 0; change (offsetof zimg) with 4;
         change (offsetof linux_magic) with 56;
         change (sizeof_field msdos_magic) with 2;
         change (sizeof_field zimg) with 4;
         change (sizeof_field linux_magic) with 4; lia).
  cbn [Z.to_nat Pos.to_nat Pos.iter_op Nat.add firstn
       EFI_PE_MSDOS_MAGIC ZIMG EFI_PE_LINUX_MAGIC].
  tauto.
Qed.

(* ------------------------------------------------------------------ *)
(** ** Runs of [main] *)

Lemma header_of_slice (env : environment) (data : list byte) (off n : Z) :
  0 <= off -> 0 <= n -> off + n <= sizeof_header ->
  sizeof_header <= Zlength data ->
  slice off n (header_of env data) = slice off n data.
Proof.
  intros. unfold header_of. apply slice_prefix; lia.
Qed.

Lemma header_of_length (env : environment) (data : list byte) :
  sizeof_header <= Zlength data -> sizeof_header <= Zlength (header_of env data).
Proof.
  intros H. unfold header_of. rewrite Zlength_app.
  pose proof (Zlength_nonneg (skipn (Z.to_nat sizeof_header) (env_header env))).
  unfold Zlength at 1. rewrite slice_length by (change sizeof_header with 64 in *; lia).
  change sizeof_header with 64 in *. lia.
Qed.

Lemma header_of_magic (env : environment) (data : list byte) :
  sizeof_header <= Zlength data ->
  (magic_mismatch (header_of env data) = false <->
   has_msdos_magic data /\ has_zimg_magic data /\ has_linux_magic data).
Proof.
  intros H. rewrite magic_mismatch_false by now apply header_of_length.
  unfold has_msdos_magic, has_zimg_magic, has_linux_magic.
  rewrite !header_of_slice by (try exact H; vm_compute; congruence).
  reflexivity.
Qed.

Lemma truncate_reader_fresh (same : bool) (data : list byte) (seekable : bool) :
  truncate_reader same (mkIn data 0 seekable)
  = mkIn (if same then [] else data) 0 seekable.
Proof. destruct same; reflexivity. Qed.

(** Stepping through the two [fopen] calls of a run in which they succeed. *)
Ltac open_streams Hopens :=
  let Hargc := fresh "Hargc" in
  let Hin := fresh "Hin" in
  let Hout := fresh "Hout" in
  let Hdata := fresh "Hdata" in
  let data0 := fresh "data0" in
  let room := fresh "room" in
  destruct Hopens as (Hargc & (data0 & Hin & Hdata) & Hout);
  unfold delivered in Hdata;
  unfold main, open_events;
  replace (Zlength _ <? 2) with false by (symmetry; apply Z.ltb_ge; exact Hargc);
  unfold fopen_r; rewrite Hin;
  match goal with
  | |- context [ 2 <? Zlength ?argv ] =>
      revert Hdata;
      destruct (Z.ltb_spec 2 (Zlength argv)) as [Hargc'|Hargc'];
      cbn [andb]; intros Hdata;
      [ destruct (Hout Hargc') as (room & Hroom);
        unfold fopen_w; rewrite Hroom;
        rewrite truncate_reader_fresh
      | ];
      rewrite <- Hdata;
      cbn [is_null andb]
  end.

Lemma main_short_header fuel env argv data seekable :
  opens env argv data seekable ->
  Zlength data < sizeof_header ->
  exists r,
    main fuel env argv = Some r
    /\ r_status r = EXIT_FAILURE
    /\ p_out (r_proc r) = []
    /\ p_err (r_proc r) = [("Error reading EFI zboot header" ++ nl)%string]
    /\ p_trace (r_proc r) =
         open_events argv ++ [Efread sizeof_header 1 false; Efclose Fin].
Proof.
  intros Hopens Hshort.
  open_streams Hopens.
  - destruct (fread_short (env_header env) sizeof_header (mkIn data 0 seekable)
                (log (Efopen Fout true) (log (Efopen Fin true) proc0)))
      as (o' & s' & E & _); [reflexivity | cbn [i_data i_pos]; lia |].
    rewrite E. cbn [Z.eqb negb]. eexists. split; [reflexivity|].
    repeat split.
  - destruct (fread_short (env_header env) sizeof_header (mkIn data 0 seekable)
                (log (Efopen Fin true) proc0))
      as (o' & s' & E & _); [reflexivity | cbn [i_data i_pos]; lia |].
    rewrite E. cbn [Z.eqb negb]. eexists. split; [reflexivity|].
    repeat split.
Qed.

Lemma fread_header (env : environment) (data : list byte) (seekable : bool)
    (p : proc) :
  sizeof_header <= Zlength data ->
  fread (env_header env) sizeof_header 1 (mkIn data 0 seekable) p =
    (1, header_of env data, mkIn data sizeof_header seekable,
     log (Efread sizeof_header 1 true) p).
Proof.
  intros H. rewrite fread_full; [reflexivity | reflexivity | reflexivity |].
  cbn [i_pos i_data]. lia.
Qed.

Lemma main_bad_magic fuel env argv data seekable :
  opens env argv data seekable ->
  sizeof_header <= Zlength data ->
  magic_mismatch (header_of env data) = true ->
  exists r,
    main fuel env argv = Some r
    /\ r_status r = EXIT_FAILURE
    /\ p_out (r_proc r) = []
    /\ p_err (r_proc r) = [("Error: input is not a kernel EFI image" ++ nl)%string]
    /\ p_trace (r_proc r) = open_events argv ++ [Efread sizeof_header 1 true].
Proof.
  intros Hopens Hlen Hbad. unfold magic_mismatch in Hbad.
  open_streams Hopens; rewrite fread_header by exact Hlen;
    cbn [Z.eqb Pos.eqb negb]; rewrite Hbad;
    (eexists; split; [reflexivity|]; repeat split).
Qed.

Lemma member_header_of (env : environment) (data : list byte) (f : field) :
  sizeof_header <= Zlength data ->
  member f (header_of env data) = slice (offsetof f) (sizeof_field f) data.
Proof.
  intros H. unfold member. apply header_of_slice; try exact H;
    destruct f; vm_compute; congruence.
Qed.

Lemma main_no_output fuel env argv data seekable :
  opens env argv data seekable ->
  Zlength argv = 2 ->
  sizeof_header <= Zlength data ->
  magic_mismatch (header_of env data) = false ->
  main fuel env argv =
    Some (mkResult EXIT_SUCCESS (Some (mkIn data sizeof_header seekable)) None
            (fclose Fin
               (printf_stdout (report (env_host env) data)
                  (log (Efread sizeof_header 1 true)
                     (log (Efopen Fin true) proc0))))).
Proof.
  intros Hopens Hargc2 Hlen Hok. unfold magic_mismatch in Hok.
  open_streams Hopens; [lia|].
  rewrite fread_header by exact Hlen. cbn [Z.eqb Pos.eqb negb]. rewrite Hok.
  unfold member32, report, decode. rewrite !member_header_of by exact Hlen.
  reflexivity.
Qed.

Lemma main_with_output fuel env argv data seekable room :
  opens env argv data seekable ->
  2 < Zlength argv ->
  env_open_w env (nth 2%nat argv EmptyString) = Opened room ->
  sizeof_header <= Zlength data ->
  magic_mismatch (header_of env data) = false ->
  main fuel env argv =
    match copy_data fuel (env_buf env)
            (mkIn data sizeof_header seekable) (mkOut [] room)
            (decode (env_host env) (slice (offsetof payload_offset) 4 data))
            (decode (env_host env) (slice (offsetof payload_size) 4 data))
            (printf_stdout (report (env_host env) data)
               (log (Efread sizeof_header 1 true)
                  (log (Efopen Fout true) (log (Efopen Fin true) proc0))))
    with
    | None => None
    | Some c =>
        Some (mkResult EXIT_SUCCESS (Some (c_fin c)) (Some (c_fout c))
                (fclose Fin (fclose Fout (c_proc c))))
    end.
Proof.
  intros Hopens Hargc3 Hw Hlen Hok. unfold magic_mismatch in Hok.
  open_streams Hopens; [|lia].
  rewrite Hw in Hroom. injection Hroom as <-.
  rewrite fread_header by exact Hlen. cbn [Z.eqb Pos.eqb negb]. rewrite Hok.
  unfold member32, report, decode. rewrite !member_header_of by exact Hlen.
  reflexivity.
Qed.

(** A run that ends with [EXIT_SUCCESS] has read a complete header that
    carries the three magic numbers. *)
Lemma main_success_inv fuel env argv r :
  main fuel env argv = Some r ->
  r_status r = EXIT_SUCCESS ->
  exists data seekable,
    opens env argv data seekable
    /\ sizeof_header <= Zlength data
    /\ has_msdos_magic data /\ has_zimg_magic data /\ has_linux_magic data.
Proof.
  intros Hrun Hst.
  destruct (Z.ltb_spec (Zlength argv) 2) as [Hargc|Hargc].
  { unfold main in Hrun.
    replace (Zlength argv <? 2) with true in Hrun by (symmetry; apply Z.ltb_lt; lia).
    injection Hrun as <-. discriminate. }
  destruct (env_open_r env (nth 1%nat argv EmptyString)) as [[data0 seekable]|e] eqn:Hin.
  2: { unfold main in Hrun.
       replace (Zlength argv <? 2) with false in Hrun by (symmetry; apply Z.ltb_ge; lia).
       unfold fopen_r in Hrun. rewrite Hin in Hrun. injection Hrun as <-. discriminate. }
  assert (Hout : 2 < Zlength argv ->
                 exists room, env_open_w env (nth 2%nat argv EmptyString) = Opened room).
  { intros Hargc3.
    destruct (env_open_w env (nth 2%nat argv EmptyString)) as [room|e] eqn:Hw;
      [now exists room|].
    unfold main in Hrun.
    replace (Zlength argv <? 2) with false in Hrun by (symmetry; apply Z.ltb_ge; lia).
    unfold fopen_r in Hrun. rewrite Hin in Hrun.
    replace (2 <? Zlength argv) with true in Hrun by (symmetry; apply Z.ltb_lt; lia).
    unfold fopen_w in Hrun. rewrite Hw in Hrun. cbn [is_null andb] in Hrun.
    injection Hrun as <-. discriminate. }
  set (data := delivered env argv data0).
  assert (Hopens : opens env argv data seekable).
  { split; [lia|]. split; [|exact Hout]. exists data0. split; [exact Hin | reflexivity]. }
  exists data, seekable. split; [exact Hopens|].
  destruct (Z_lt_le_dec (Zlength data) sizeof_header) as [Hshort|Hlen].
  { destruct (main_short_header fuel env argv data seekable Hopens Hshort)
      as (r' & Hr' & Hst' & _).
    rewrite Hrun in Hr'. injection Hr' as <-. rewrite Hst in Hst'. discriminate. }
  split; [exact Hlen|].
  apply (header_of_magic env); [exact Hlen|].
  destruct (magic_mismatch (header_of env data)) eqn:Hm; [|reflexivity].
  destruct (main_bad_magic fuel env argv data seekable Hopens Hlen Hm)
    as (r' & Hr' & Hst' & _).
  rewrite Hrun in Hr'. injection Hr' as <-. rewrite Hst in Hst'. discriminate.
Qed.

Lemma fread_trace obj size nmemb s p r obj' s' p' :
  fread obj size nmemb s p = (r, obj', s', p') ->
  p_trace p' = p_trace p ++ [Efread size nmemb (r =? nmemb)].
Proof.
  unfold fread. intros [= <- _ _ <-]. reflexivity.
Qed.

Lemma fwrite_trace obj size nmemb s p w s' p' :
  fwrite obj size nmemb s p = (w, s', p') ->
  p_trace p' = p_trace p ++ [Efwrite size nmemb (w =? nmemb)].
Proof.
  unfold fwrite. intros [= <- _ <-].
  match goal with |- context [ if ?b then _ else _ ] => destruct b end;
    reflexivity.
Qed.

Lemma copy_loop_trace_extends (fuel : nat) :
  forall buf fin fout len p c,
    copy_loop fuel buf fin fout len p = Some c ->
    exists evs, p_trace (c_proc c) = p_trace p ++ evs.
Proof.
  induction fuel as [|fuel IH]; intros buf fin fout len p c Hrun;
    [discriminate|].
  cbn [copy_loop] in Hrun.
  destruct (len =? 0).
  { injection Hrun as <-. exists []. cbn. now rewrite app_nil_r. }
  destruct (fread buf (MIN len sizeof_buf) 1 fin p) as [[[r buf1] fin1] p1] eqn:Er.
  apply fread_trace in Er.
  destruct (negb (r =? 1)).
  { injection Hrun as <-. eexists. cbn [c_proc fprintf_stderr p_trace]. exact Er. }
  destruct (fwrite buf1 (MIN len sizeof_buf) 1 fout p1) as [[w fout1] p2] eqn:Ew.
  apply fwrite_trace in Ew.
  destruct (negb (w =? 1)).
  { injection Hrun as <-. eexists. cbn [c_proc fprintf_stderr p_trace].
    rewrite Ew, Er, <- app_assoc. reflexivity. }
  apply IH in Hrun. destruct Hrun as (evs & ->).
  eexists. rewrite Ew, Er, <- !app_assoc. reflexivity.
Qed.

Lemma copy_data_trace_extends fuel buf fin fout offset len p c :
  copy_data fuel buf fin fout offset len p = Some c ->
  exists evs,
    p_trace (c_proc c) = p_trace p ++ Efseek offset (seek_ok fin offset) :: evs.
Proof.
  intros Hrun. destruct (seek_ok fin offset) eqn:Hs.
  - rewrite copy_data_seek_ok in Hrun by exact Hs.
    apply copy_loop_trace_extends in Hrun. destruct Hrun as (evs & ->).
    exists evs. cbn [log p_trace]. now rewrite <- app_assoc.
  - destruct (copy_data_seek_fail fuel buf fin fout offset len p Hs) as (e & E).
    rewrite E in Hrun. injection Hrun as <-. exists []. reflexivity.
Qed.

(** The result of [copy_data] when the seek succeeds: the outcome of the
    loop, started at [offset]. *)
Lemma copy_data_spec fuel buf fin fout offset len p c :
  0 <= len < 2 ^ 64 ->
  seek_ok fin offset = true ->
  copy_data fuel buf fin fout offset len p = Some c ->
  exists n evs,
    0 <= n <= len
    /\ loop_outcome (mkIn (i_data fin) offset (i_seekable fin)) fout len p c n
    /\ p_trace (c_proc c) = p_trace p ++ Efseek offset true :: evs
    /\ chunked evs = true.
Proof.
  intros Hlen Hs Hrun. rewrite copy_data_seek_ok in Hrun by exact Hs.
  assert (Hoff : 0 <= offset).
  { unfold seek_ok in Hs. apply andb_prop in Hs. destruct Hs as [_ Hs].
    now apply Z.leb_le. }
  destruct (copy_loop_spec fuel buf (mkIn (i_data fin) offset (i_seekable fin))
              fout len _ c Hlen Hoff Hrun) as (n & Hn & _ & _ & Hcase).
  destruct (copy_loop_trace _ _ _ _ _ _ _ Hlen Hrun) as (evs & Htr & Hch).
  exists n, evs. split; [exact Hn|]. split.
  - unfold loop_outcome in *. cbn [p_err log] in Hcase. exact Hcase.
  - split; [|exact Hch]. rewrite Htr. cbn [log p_trace].
    now rewrite <- app_assoc.
Qed.

Lemma copy_data_returns fuel buf fin fout offset len p :
  0 <= len < 2 ^ 64 -> loop_bound len <= Z.of_nat fuel ->
  exists c, copy_data fuel buf fin fout offset len p = Some c.
Proof.
  intros Hlen Hfuel. destruct (seek_ok fin offset) eqn:Hs.
  - rewrite copy_data_seek_ok by exact Hs. now apply copy_loop_returns.
  - destruct (copy_data_seek_fail fuel buf fin fout offset len p Hs) as (e & E).
    eexists. exact E.
Qed.

Lemma byte_to_Z_mod (b : byte) : byte_to_Z b = byte_to_Z b mod 2 ^ 8.
Proof. symmetry. apply Z.mod_small. apply byte_to_Z_range. Qed.

Lemma high_bits_zero (a : Z) :
  0 <= a -> (forall i, 32 <= i -> Z.testbit a i = false) -> 0 <= a < 2 ^ 32.
Proof.
  intros Ha Hhi. split; [exact Ha|].
  destruct (Z_lt_le_dec a (2 ^ 32)) as [H|H]; [exact H|exfalso].
  assert (Hpos : 0 < a) by lia.
  apply Z.log2_le_pow2 in H; [|exact Hpos].
  apply Hhi in H. rewrite Z.bit_log2 in H by exact Hpos. discriminate.
Qed.

Lemma load_uint32_range (host : byte_order) (bs : list byte) :
  0 <= load_uint32 host bs < 2 ^ 32.
Proof.
  unfold load_uint32.
  destruct bs as [|b0 [|b1 [|b2 [|b3 [|b4 bs]]]]]; try lia.
  pose proof (byte_to_Z_range b0). pose proof (byte_to_Z_range b1).
  pose proof (byte_to_Z_range b2). pose proof (byte_to_Z_range b3).
  destruct host; apply high_bits_zero.
  - repeat (apply Z.lor_nonneg; split); try apply Z.shiftl_nonneg; lia.
  - intros i Hi.
    rewrite (byte_to_Z_mod b0), (byte_to_Z_mod b1), (byte_to_Z_mod b2),
      (byte_to_Z_mod b3).
    byte_bits i.
  - repeat (apply Z.lor_nonneg; split); try apply Z.shiftl_nonneg; lia.
  - intros i Hi.
    rewrite (byte_to_Z_mod b0), (byte_to_Z_mod b1), (byte_to_Z_mod b2),
      (byte_to_Z_mod b3).
    byte_bits i.
Qed.

Lemma bswap_32_range (x : Z) : 0 <= x -> 0 <= bswap_32 x < 2 ^ 32.
Proof.
  intros Hx. unfold bswap_32, uint32.
  change 4278190080 with (Z.shiftl (Z.ones 8) 24).
  change 16711680 with (Z.shiftl (Z.ones 8) 16).
  change 65280 with (Z.shiftl (Z.ones 8) 8).
  change 255 with (Z.ones 8).
  apply high_bits_zero.
  - repeat (apply Z.lor_nonneg; split);
      try (apply Z.mod_pos_bound; lia);
      apply Z.shiftr_nonneg; apply Z.land_nonneg; left; exact Hx.
  - intros i Hi. byte_bits i.
Qed.

Lemma decode_range (host : byte_order) (bs : list byte) :
  0 <= decode host bs < 2 ^ 32.
Proof.
  unfold decode, fixendian, le32toh. destruct host.
  - apply load_uint32_range.
  - apply bswap_32_range. apply load_uint32_range.
Qed.

Lemma loop_bound_mono (a b : Z) : a <= b -> loop_bound a <= loop_bound b.
Proof.
  intros H. unfold loop_bound, sizeof_buf.
  assert ((a + 16384 - 1) / 16384 <= (b + 16384 - 1) / 16384)
    by (apply Z.div_le_mono; lia).
  lia.
Qed.

(** [main] returns in every environment. *)
Lemma main_returns fuel env argv :
  main_fuel <= Z.of_nat fuel -> exists r, main fuel env argv = Some r.
Proof.
  intros Hfuel. unfold main.
  destruct (Zlength argv <? 2); [eexists; reflexivity|].
  unfold fopen_r.
  destruct (env_open_r env (nth 1%nat argv EmptyString)) as [[data seekable]|e];
    [|eexists; reflexivity].
  assert (Hcopy : forall buf fin fo f1 f2 hd p,
             exists c,
               copy_data fuel buf fin fo
                 (fixendian (env_host env) (member32 (env_host env) f1 hd))
                 (fixendian (env_host env) (member32 (env_host env) f2 hd)) p
               = Some c).
  { intros. pose proof (decode_range (env_host env) (member f2 hd)) as Hr.
    unfold decode in Hr. fold (member32 (env_host env) f2 hd) in Hr.
    apply copy_data_returns; [lia|].
    apply Z.le_trans with main_fuel; [|exact Hfuel].
    apply loop_bound_mono. unfold uint32_max. lia. }
  destruct (2 <? Zlength argv).
  - unfold fopen_w.
    destruct (env_open_w env (nth 2%nat argv EmptyString)) as [room|e];
      cbn [is_null andb]; [|eexists; reflexivity].
    destruct (fread (env_header env) sizeof_header 1 _ _) as [[[r header] fin] p].
    destruct (negb (r =? 1)); [eexists; reflexivity|].
    match goal with |- context [ if ?b then _ else _ ] => destruct b end;
      [eexists; reflexivity|].
    cbv zeta.
    match goal with
    | |- context [ copy_data fuel ?buf ?fi ?fo (fixendian ?h (member32 ?h ?f1 ?hd))
                     (fixendian ?h (member32 ?h ?f2 ?hd)) ?q ] =>
        destruct (Hcopy buf fi fo f1 f2 hd q) as (c & Hc)
    end.
    rewrite Hc. eexists. reflexivity.
  - cbn [is_null andb].
    destruct (fread (env_header env) sizeof_header 1 _ _) as [[[r header] fin] p].
    destruct (negb (r =? 1)); [eexists; reflexivity|].
    match goal with |- context [ if ?b then _ else _ ] => destruct b end;
      eexists; reflexivity.
Qed.

(* ------------------------------------------------------------------ *)
(** ** Byte order, buffers, chunk sequences and the paths of [main] *)

Lemma decode_host_independent (h1 h2 : byte_order) (bs : list byte) :
  decode h1 bs = decode h2 bs.
Proof.
  assert (H : decode BigEndian bs = decode LittleEndian bs).
  { unfold decode, fixendian, le32toh, load_uint32.
    destruct bs as [|b0 [|b1 [|b2 [|b3 [|b4 bs]]]]]; try reflexivity.
    unfold bswap_32, uint32.
    change 4278190080 with (Z.shiftl (Z.ones 8) 24).
    change 16711680 with (Z.shiftl (Z.ones 8) 16).
    change 65280 with (Z.shiftl (Z.ones 8) 8).
    change 255 with (Z.ones 8).
    rewrite (byte_to_Z_mod b0), (byte_to_Z_mod b1), (byte_to_Z_mod b2),
      (byte_to_Z_mod b3).
    apply Z.bits_inj'; intros i Hi.
    destruct (Z.lt_ge_cases i 8); [byte_bits i; f_equal; lia|].
    destruct (Z.lt_ge_cases i 16); [byte_bits i; f_equal; lia|].
    destruct (Z.lt_ge_cases i 24); [byte_bits i; f_equal; lia|].
    destruct (Z.lt_ge_cases i 32); [byte_bits i; f_equal; lia|].
    byte_bits i. }
  destruct h1, h2; congruence.
Qed.

Lemma encode_decode_le (host : byte_order) (bs : list byte) :
  List.length bs = 4%nat -> encode_le (decode host bs) = bs.
Proof.
  intros Hl. rewrite (decode_host_independent host LittleEndian).
  destruct bs as [|b0 [|b1 [|b2 [|b3 [|b4 bs]]]]]; try discriminate.
  unfold decode, fixendian, le32toh, load_uint32, encode_le.
  assert (Hb : forall z b, z mod 2 ^ 8 = byte_to_Z b -> byte_of_Z z = b).
  { intros z b E. unfold byte_of_Z. change 256 with (2 ^ 8). rewrite E.
    unfold byte_to_Z. rewrite N2Z.id, Byte.of_to_N. reflexivity. }
  repeat f_equal; apply Hb;
    rewrite (byte_to_Z_mod b0), (byte_to_Z_mod b1), (byte_to_Z_mod b2),
      (byte_to_Z_mod b3);
    apply Z.bits_inj'; intros i Hi;
    (destruct (Z.lt_ge_cases i 8); [byte_bits i; try (f_equal; lia)|byte_bits i]).
Qed.

(** What [fread] returns besides the object does not depend on the object,
    and a complete item overwrites the whole beginning of the object. *)
Lemma fread_object (obj obj' : list byte) (size : Z) (s : istream) (p : proc) :
  0 < size -> 0 <= i_pos s ->
  exists r bytes s' p',
    fread obj size 1 s p = (r, bytes ++ skipn (List.length bytes) obj, s', p')
    /\ fread obj' size 1 s p = (r, bytes ++ skipn (List.length bytes) obj', s', p')
    /\ (r = 1 -> List.length bytes = Z.to_nat size).
Proof.
  intros Hs Hp. unfold fread.
  set (n := Z.max 0 (Z.min (size * 1) (Z.max 0 (Zlength (i_data s) - i_pos s)))).
  do 4 eexists. split; [reflexivity|]. split; [reflexivity|].
  intros Hr.
  assert (Hn : n = size).
  { assert (0 <= n <= size) by lia.
    destruct (Z.eq_dec n size) as [E|E]; [exact E|].
    rewrite Z.div_small in Hr by lia. discriminate. }
  rewrite Hn. apply slice_length; lia.
Qed.

Lemma fwrite_prefix (bytes rest rest' : list byte) (size : Z) (s : ostream)
    (p : proc) :
  List.length bytes = Z.to_nat size ->
  fwrite (bytes ++ rest) size 1 s p = fwrite (bytes ++ rest') size 1 s p.
Proof.
  intros Hl. unfold fwrite.
  set (n := Z.max 0 (Z.min (size * 1) (o_room s))).
  assert (Hn : (Z.to_nat n <= List.length bytes)%nat) by lia.
  rewrite !firstn_app.
  replace (Z.to_nat n - List.length bytes)%nat with 0%nat by lia.
  reflexivity.
Qed.

Lemma copy_loop_ignores_buffer (fuel : nat) :
  forall buf buf' fin fout len p,
    0 <= len < 2 ^ 64 -> 0 <= i_pos fin ->
    copy_loop fuel buf fin fout len p = copy_loop fuel buf' fin fout len p.
Proof.
  induction fuel as [|fuel IH]; intros buf buf' fin fout len p Hlen Hpos;
    [reflexivity|].
  cbn [copy_loop].
  destruct (Z.eqb_spec len 0) as [->|Hnz]; [reflexivity|].
  assert (Hlen' : 0 < len < 2 ^ 64) by lia.
  destruct (chunk_bounds len Hlen') as (Hsz & Hsz' & Hrest).
  destruct (fread_object buf buf' (MIN len sizeof_buf) fin p)
    as (r & bytes & fin1 & p1 & E & E' & Hfull); [lia | exact Hpos |].
  assert (Hpos1 : 0 <= i_pos fin1).
  { unfold fread in E. injection E as _ _ <- _. cbn [i_pos]. lia. }
  rewrite E, E'.
  destruct (Z.eqb_spec r 1) as [Hr|Hr]; cbn [negb]; [|reflexivity].
  rewrite (fwrite_prefix bytes _ (skipn (List.length bytes) buf')) by auto.
  destruct (fwrite _ (MIN len sizeof_buf) 1 fout p1) as [[w fout1] p2].
  destruct (negb (w =? 1)); [reflexivity|].
  apply IH; [lia | exact Hpos1].
Qed.

Lemma copy_data_ignores_buffer_aux fuel buf buf' fin fout offset len p :
  0 <= len < 2 ^ 64 ->
  copy_data fuel buf fin fout offset len p
  = copy_data fuel buf' fin fout offset len p.
Proof.
  intros Hlen. destruct (seek_ok fin offset) eqn:Hs.
  - rewrite !copy_data_seek_ok by exact Hs.
    apply copy_loop_ignores_buffer; [exact Hlen|]. cbn [i_pos].
    unfold seek_ok in Hs. apply andb_prop in Hs. destruct Hs as [_ Hs].
    now apply Z.leb_le.
  - unfold copy_data.
    destruct (fseek_spec fin offset p) as [(H' & _)|(_ & e & ->)]; [congruence|].
    reflexivity.
Qed.

Lemma member_prefix (f : field) (bytes rest : list byte) :
  List.length bytes = Z.to_nat sizeof_header ->
  member f (bytes ++ rest) = member f bytes.
Proof.
  intros Hl. unfold member, slice. rewrite skipn_app, firstn_app, length_skipn.
  assert (Hf : (Z.to_nat (offsetof f) + Z.to_nat (sizeof_field f)
                <= Z.to_nat sizeof_header)%nat)
    by (destruct f; vm_compute; lia).
  replace (Z.to_nat (sizeof_field f)
           - (List.length bytes - Z.to_nat (offsetof f)))%nat with 0%nat by lia.
  cbn [firstn]. apply app_nil_r.
Qed.

Lemma fixendian_member32 (h h' : byte_order) (f : field) (hdr : list byte) :
  fixendian h (member32 h f hdr) = fixendian h' (member32 h' f hdr).
Proof. apply (decode_host_independent h h' (member f hdr)). Qed.

Lemma fixendian_member32_range (h : byte_order) (f : field) (hdr : list byte) :
  0 <= fixendian h (member32 h f hdr) < 2 ^ 32.
Proof. apply (decode_range h (member f hdr)). Qed.

(** [main] depends on its environment through the files only. *)
Lemma main_files_only fuel argv h h' open_r open_w hdr hdr' buf buf' same :
  main fuel (mkEnv h open_r open_w hdr buf same) argv
  = main fuel (mkEnv h' open_r open_w hdr' buf' same) argv.
Proof.
  unfold main.
  cbn [env_host env_open_r env_open_w env_header env_buf env_same_file].
  destruct (Zlength argv <? 2); [reflexivity|].
  unfold fopen_r, fopen_w. cbn [env_open_r env_open_w env_same_file].
  destruct (open_r (nth 1%nat argv EmptyString)) as [[data seekable]|e];
    [|reflexivity].
  assert (Hread : forall d p,
             exists r bytes s' p',
               fread hdr sizeof_header 1 (mkIn d 0 seekable) p
               = (r, bytes ++ skipn (List.length bytes) hdr, s', p')
               /\ fread hdr' sizeof_header 1 (mkIn d 0 seekable) p
                  = (r, bytes ++ skipn (List.length bytes) hdr', s', p')
               /\ (r = 1 -> List.length bytes = Z.to_nat sizeof_header)).
  { intros d p. apply fread_object; [reflexivity | cbn [i_pos]; lia]. }
  destruct (2 <? Zlength argv).
  - destruct (open_w (nth 2%nat argv EmptyString)) as [room|e];
      cbn [is_null andb]; [|reflexivity].
    rewrite truncate_reader_fresh.
    match goal with
    | |- context [ fread hdr sizeof_header 1 (mkIn ?content _ _) ?q ] =>
        destruct (Hread content q) as (r & bytes & fin & p1 & E & E' & Hfull)
    end.
    rewrite E, E'.
    destruct (Z.eqb_spec r 1) as [Hr|Hr]; cbn [negb]; [|reflexivity].
    rewrite !member_prefix by auto.
    unfold member32. rewrite !member_prefix by auto.
    fold (member32 h payload_offset bytes) (member32 h payload_size bytes)
      (member32 h pe_header_offset bytes)
      (member32 h' payload_offset bytes) (member32 h' payload_size bytes)
      (member32 h' pe_header_offset bytes).
    rewrite !(fixendian_member32 h h').
    match goal with |- context [ if ?b then _ else _ ] => destruct b end;
      [reflexivity|].
    cbv zeta.
    rewrite (copy_data_ignores_buffer_aux fuel buf buf')
      by (pose proof (fixendian_member32_range h' payload_size bytes); lia).
    reflexivity.
  - cbn [is_null andb].
    match goal with
    | |- context [ fread hdr sizeof_header 1 (mkIn ?content _ _) ?q ] =>
        destruct (Hread content q) as (r & bytes & fin & p1 & E & E' & Hfull)
    end.
    rewrite E, E'.
    destruct (Z.eqb_spec r 1) as [Hr|Hr]; cbn [negb]; [|reflexivity].
    rewrite !member_prefix by auto.
    unfold member32. rewrite !member_prefix by auto.
    fold (member32 h payload_offset bytes) (member32 h payload_size bytes)
      (member32 h pe_header_offset bytes)
      (member32 h' payload_offset bytes) (member32 h' payload_size bytes)
      (member32 h' pe_header_offset bytes).
    rewrite !(fixendian_member32 h h').
    reflexivity.
Qed.

Lemma transfer_events_small (len : Z) :
  0 < len < sizeof_buf ->
  transfer_events len = [Efread len 1 true; Efwrite len 1 true].
Proof.
  intros H. unfold transfer_events.
  rewrite Z.div_small, Z.mod_small by lia.
  replace (len =? 0) with false by (symmetry; apply Z.eqb_neq; lia).
  reflexivity.
Qed.

Lemma transfer_events_big (len : Z) :
  sizeof_buf <= len ->
  transfer_events len
  = Efread sizeof_buf 1 true :: Efwrite sizeof_buf 1 true
    :: transfer_events (len - sizeof_buf).
Proof.
  intros H. unfold transfer_events.
  rewrite div_chunk_step by exact H.
  assert (Hq : 1 <= len / sizeof_buf)
    by (apply Z.div_le_lower_bound; unfold sizeof_buf in *; lia).
  replace (Z.to_nat (len / sizeof_buf))
    with (S (Z.to_nat (len / sizeof_buf - 1))) by lia.
  replace ((len - sizeof_buf) mod sizeof_buf) with (len mod sizeof_buf).
  - reflexivity.
  - unfold sizeof_buf. replace (len - 16384) with (len + (-1) * 16384) by lia.
    now rewrite Z.mod_add by lia.
Qed.

Lemma copy_loop_transfer (fuel : nat) :
  forall buf fin fout len p,
    0 <= len < 2 ^ 64 -> 0 <= i_pos fin ->
    i_pos fin + len <= Zlength (i_data fin) ->
    len <= o_room fout ->
    loop_bound len <= Z.of_nat fuel ->
    exists c,
      copy_loop fuel buf fin fout len p = Some c
      /\ c_exit c = ret_end
      /\ c_fin c = mkIn (i_data fin) (i_pos fin + len) (i_seekable fin)
      /\ c_fout c = mkOut (o_data fout ++ slice (i_pos fin) len (i_data fin))
                      (o_room fout - len)
      /\ p_out (c_proc c) = p_out p
      /\ p_err (c_proc c) = p_err p
      /\ p_trace (c_proc c) = p_trace p ++ transfer_events len.
Proof.
  induction fuel as [|fuel IH]; intros buf fin fout len p Hlen Hpos Hsrc Hroom Hfuel.
  { pose proof (loop_bound_pos len). lia. }
  destruct (Z.eq_dec len 0) as [->|Hnz].
  { cbn [copy_loop Z.eqb]. eexists. split; [reflexivity|].
    cbn [c_exit c_fin c_fout c_proc]. rewrite slice_zero, app_nil_r, !Z.add_0_r, Z.sub_0_r.
    change (transfer_events 0) with (@nil event). rewrite app_nil_r.
    destruct fin, fout. repeat split. }
  assert (Hlen' : 0 < len < 2 ^ 64) by lia.
  destruct (chunk_bounds len Hlen') as (Hsz & Hsz' & Hrest).
  rewrite size_t_small in Hrest by lia.
  pose proof (loop_bound_step len) as Hstep.
  rewrite copy_loop_step by lia.
  destruct (IH (slice (i_pos fin) (MIN len sizeof_buf) (i_data fin)
                  ++ skipn (Z.to_nat (MIN len sizeof_buf)) buf)
               (mkIn (i_data fin) (i_pos fin + MIN len sizeof_buf) (i_seekable fin))
               (mkOut (o_data fout
                       ++ slice (i_pos fin) (MIN len sizeof_buf) (i_data fin))
                  (o_room fout - MIN len sizeof_buf))
               (len - MIN len sizeof_buf)
               (log (Efwrite (MIN len sizeof_buf) 1 true)
                  (log (Efread (MIN len sizeof_buf) 1 true) p)))
    as (c & Hrun & Hexit & Hfin & Hfout & Hout & Herr & Htr);
    cbn [i_pos i_data o_room]; try lia.
  exists c. split; [exact Hrun|]. split; [exact Hexit|].
  cbn [i_pos i_data i_seekable o_data o_room p_out p_err p_trace log] in *.
  split; [rewrite Hfin; f_equal; lia|].
  split.
  { rewrite Hfout. f_equal; [|lia].
    rewrite <- app_assoc, <- slice_plus by lia. do 2 f_equal. lia. }
  split; [exact Hout|]. split; [exact Herr|].
  rewrite Htr, <- !app_assoc. f_equal. cbn [app].
  rewrite MIN_spec in *.
  destruct (Z_lt_le_dec len sizeof_buf) as [Hs|Hb].
  - replace (Z.min len sizeof_buf) with len by lia.
    rewrite Z.sub_diag, (transfer_events_small len) by lia. reflexivity.
  - replace (Z.min len sizeof_buf) with sizeof_buf by lia.
    now rewrite (transfer_events_big len) by lia.
Qed.

Lemma copy_loop_full_sink (fuel : nat) :
  forall buf fin fout len p c,
    0 < len < 2 ^ 64 -> 0 <= i_pos fin ->
    i_pos fin + len <= Zlength (i_data fin) ->
    o_room fout < len ->
    copy_loop fuel buf fin fout len p = Some c ->
    c_exit c = ret_write_error
    /\ p_err (c_proc c) = p_err p ++ [("Error writing data" ++ nl)%string]
    /\ o_data (c_fout c)
       = o_data fout ++ slice (i_pos fin) (Z.max 0 (o_room fout)) (i_data fin).
Proof.
  induction fuel as [|fuel IH]; intros buf fin fout len p c Hlen Hpos Hsrc Hroom Hrun;
    [discriminate|].
  destruct (chunk_bounds len Hlen) as (Hsz & Hsz' & Hrest).
  rewrite size_t_small in Hrest by lia.
  destruct (Z_lt_le_dec (o_room fout) (MIN len sizeof_buf)) as [Hfull|Hfits].
  - cbn [copy_loop] in Hrun.
    replace (len =? 0) with false in Hrun by (symmetry; apply Z.eqb_neq; lia).
    rewrite fread_full in Hrun by lia. cbn [Z.eqb Pos.eqb negb] in Hrun.
    unfold fwrite in Hrun.
    set (n := Z.max 0 (Z.min (MIN len sizeof_buf * 1) (o_room fout))) in *.
    assert (Hn : n = Z.max 0 (o_room fout)) by lia.
    rewrite (Z.div_small n) in Hrun by lia.
    cbn [Z.eqb negb] in Hrun. injection Hrun as <-.
    cbn [c_exit c_proc c_fout o_data fprintf_stderr set_errno log p_err].
    split; [reflexivity|]. split; [reflexivity|].
    f_equal. rewrite firstn_app.
    rewrite slice_length by lia.
    replace (Z.to_nat n - Z.to_nat (MIN len sizeof_buf))%nat with 0%nat by lia.
    cbn [firstn]. rewrite app_nil_r. unfold slice. rewrite firstn_firstn.
    f_equal. lia.
  - rewrite copy_loop_step in Hrun by lia.
    apply IH in Hrun; cbn [i_pos i_data o_room]; try lia.
    destruct Hrun as (Hexit & Herr & Hsink).
    cbn [i_pos i_data o_data o_room p_err log] in *.
    split; [exact Hexit|]. split; [exact Herr|].
    rewrite Hsink, <- app_assoc, <- slice_plus by lia.
    do 2 f_equal. lia.
Qed.

(** A sink that runs out of room within a whole chunk: the chunks that fit
    are read and written, and the write of the next chunk, of [sizeof(buf)]
    bytes, is the call that fails. *)
Lemma copy_loop_full_chunk (fuel : nat) :
  forall buf fin fout len p c,
    0 < len < 2 ^ 64 -> 0 <= i_pos fin ->
    i_pos fin + len <= Zlength (i_data fin) ->
    0 <= o_room fout ->
    (o_room fout / sizeof_buf + 1) * sizeof_buf <= len ->
    copy_loop fuel buf fin fout len p = Some c ->
    p_trace (c_proc c)
    = p_trace p ++ transfer_events (o_room fout / sizeof_buf * sizeof_buf)
      ++ [Efread sizeof_buf 1 true; Efwrite sizeof_buf 1 false].
Proof.
  induction fuel as [|fuel IH];
    intros buf fin fout len p c Hlen Hpos Hsrc Hroom Hwhole Hrun; [discriminate|].
  assert (Hq : 0 <= o_room fout / sizeof_buf)
    by (apply Z.div_pos; unfold sizeof_buf; lia).
  assert (Hbig : sizeof_buf <= len) by (unfold sizeof_buf in *; nia).
  assert (Hsize : MIN len sizeof_buf = sizeof_buf) by (rewrite MIN_spec; lia).
  destruct (Z_lt_le_dec (o_room fout) sizeof_buf) as [Hfull|Hfits].
  - cbn [copy_loop] in Hrun.
    replace (len =? 0) with false in Hrun by (symmetry; apply Z.eqb_neq; lia).
    rewrite Hsize in Hrun.
    rewrite fread_full in Hrun by (unfold sizeof_buf in *; lia).
    cbn [Z.eqb Pos.eqb negb] in Hrun.
    unfold fwrite in Hrun.
    set (n := Z.max 0 (Z.min (sizeof_buf * 1) (o_room fout))) in *.
    rewrite (Z.div_small n) in Hrun by lia.
    cbn [Z.eqb negb] in Hrun. injection Hrun as <-.
    cbn [c_proc fprintf_stderr set_errno log p_trace].
    rewrite (Z.div_small (o_room fout)) by lia.
    rewrite <- app_assoc. reflexivity.
  - rewrite copy_loop_step in Hrun by lia.
    rewrite Hsize in Hrun.
    assert (Hdiv : (o_room fout - sizeof_buf) / sizeof_buf = o_room fout / sizeof_buf - 1)
      by (apply div_chunk_step; exact Hfits).
    assert (Hq1 : 1 <= o_room fout / sizeof_buf)
      by (apply Z.div_le_lower_bound; unfold sizeof_buf in *; lia).
    assert (Hpos1 : 0 < sizeof_buf) by (unfold sizeof_buf; lia).
    apply IH in Hrun; cbn [i_pos i_data o_room]; try rewrite Hdiv; try lia.
    cbn [o_room p_trace log] in Hrun. rewrite Hrun, Hdiv.
    rewrite (transfer_events_big (o_room fout / sizeof_buf * sizeof_buf)) by nia.
    replace (o_room fout / sizeof_buf * sizeof_buf - sizeof_buf)
      with ((o_room fout / sizeof_buf - 1) * sizeof_buf) by lia.
    rewrite <- !app_assoc. reflexivity.
Qed.

Lemma copy_data_keeps_stdout fuel buf fin fout offset len p c :
  0 <= len < 2 ^ 64 ->
  copy_data fuel buf fin fout offset len p = Some c ->
  p_out (c_proc c) = p_out p.
Proof.
  intros Hlen Hrun. destruct (seek_ok fin offset) eqn:Hs.
  - rewrite copy_data_seek_ok in Hrun by exact Hs.
    apply copy_loop_spec in Hrun; [|exact Hlen|].
    + destruct Hrun as (n & _ & _ & Hout & _). exact Hout.
    + cbn [i_pos]. unfold seek_ok in Hs. apply andb_prop in Hs.
      destruct Hs as [_ Hs]. now apply Z.leb_le.
  - destruct (copy_data_seek_fail fuel buf fin fout offset len p Hs) as (e & E).
    rewrite E in Hrun. injection Hrun as <-. reflexivity.
Qed.

(** A run on a complete header with the three magic numbers. *)
Lemma main_valid_header fuel env argv data seekable :
  opens env argv data seekable ->
  sizeof_header <= Zlength data ->
  has_msdos_magic data /\ has_zimg_magic data /\ has_linux_magic data ->
  main_fuel <= Z.of_nat fuel ->
  exists r,
    main fuel env argv = Some r
    /\ r_status r = EXIT_SUCCESS
    /\ p_out (r_proc r) = [report (env_host env) data].
Proof.
  intros Hopens Hlen Hmagic Hfuel.
  apply (header_of_magic env data Hlen) in Hmagic.
  destruct (Z.ltb_spec 2 (Zlength argv)) as [Hargc|Hargc].
  - pose proof Hopens as (H2 & Hin & Hout).
    destruct (Hout Hargc) as (room & Hw).
    rewrite (main_with_output fuel env argv data seekable room)
      by assumption.
    pose proof (decode_range (env_host env) (slice (offsetof payload_size) 4 data))
      as Hr.
    match goal with
    | |- context [ copy_data ?f ?b ?i ?o ?off ?l ?q ] =>
        destruct (copy_data_returns f b i o off l q) as (c & Hc);
        [lia | | rewrite Hc; pose proof (copy_data_keeps_stdout f b i o off l q c) as Hk]
    end.
    + apply Z.le_trans with main_fuel; [|exact Hfuel].
      apply loop_bound_mono. unfold uint32_max. lia.
    + eexists. split; [reflexivity|]. split; [reflexivity|].
      cbn [r_proc fclose log p_out]. rewrite Hk by (exact Hc || lia). reflexivity.
  - assert (Hargc2 : Zlength argv = 2) by (destruct Hopens; lia).
    rewrite (main_no_output fuel env argv data seekable) by assumption.
    eexists. split; [reflexivity|]. split; reflexivity.
Qed.

Lemma transfer_events_length (len : Z) :
  0 <= len ->
  Zlength (transfer_events len) = 2 * ((len + sizeof_buf - 1) / sizeof_buf).
Proof.
  intros Hlen. unfold transfer_events, Zlength. rewrite length_app.
  assert (Hrep : forall k,
             List.length
               (List.concat
                  (repeat [Efread sizeof_buf 1 true; Efwrite sizeof_buf 1 true] k))
             = (2 * k)%nat).
  { induction k as [|k IH]; [reflexivity|].
    cbn [repeat List.concat app List.length]. rewrite IH. lia. }
  rewrite Hrep. unfold sizeof_buf.
  pose proof (Z.div_mod len 16384 ltac:(lia)).
  pose proof (Z.mod_pos_bound len 16384 ltac:(lia)).
  assert (Hq : 0 <= len / 16384) by (apply Z.div_pos; lia).
  destruct (Z.eqb_spec (len mod 16384) 0) as [E|E]; cbn [List.length].
  - replace ((len + 16384 - 1) / 16384) with (len / 16384);
      [lia|]. apply Z.div_unique with (len mod 16384 + 16383); lia.
  - replace ((len + 16384 - 1) / 16384) with (len / 16384 + 1);
      [lia|]. apply Z.div_unique with (len mod 16384 - 1); lia.
Qed.

Lemma until_nul_label (label pad : list byte) :
  ~ In x00 label ->
  pad = [] \/ (exists pad', pad = x00 :: pad') ->
  until_nul (label ++ pad) = label.
Proof.
  intros Hno Hpad. induction label as [|b label IH]; cbn [app until_nul].
  - destruct Hpad as [->|(pad' & ->)]; reflexivity.
  - destruct (Byte.eqb b x00) eqn:E.
    + apply Byte.byte_dec_bl in E. subst b. exfalso. apply Hno. now left.
    + rewrite IH; [reflexivity|]. intros H. apply Hno. now right.
Qed.

Lemma copy_loop_prefix (fuel : nat) :
  forall buf fin fout len p c,
    0 <= len < 2 ^ 64 -> 0 <= i_pos fin ->
    copy_loop fuel buf fin fout len p = Some c ->
    exists m,
      0 <= m <= len
      /\ i_pos fin + m <= Z.max (i_pos fin) (Zlength (i_data fin))
      /\ o_data (c_fout c) = o_data fout ++ slice (i_pos fin) m (i_data fin)
      /\ (c_exit c = ret_end -> m = len).
Proof.
  induction fuel as [|fuel IH]; intros buf fin fout len p c Hlen Hpos Hrun;
    [discriminate|].
  destruct (Z.eq_dec len 0) as [->|Hnz].
  { cbn in Hrun. injection Hrun as <-. exists 0. cbn [c_fout c_exit].
    rewrite slice_zero, app_nil_r. repeat split; lia. }
  assert (Hlen' : 0 < len < 2 ^ 64) by lia.
  destruct (chunk_bounds len Hlen') as (Hsz & Hsz' & Hrest).
  rewrite size_t_small in Hrest by lia.
  destruct (Z_lt_le_dec (Zlength (i_data fin)) (i_pos fin + MIN len sizeof_buf))
    as [Hshort|Hin].
  { cbn [copy_loop] in Hrun.
    replace (len =? 0) with false in Hrun by (symmetry; apply Z.eqb_neq; lia).
    destruct (fread_short buf (MIN len sizeof_buf) fin p) as (o' & s' & E & Hd);
      [lia | lia |].
    rewrite E in Hrun. cbn [Z.eqb negb] in Hrun. injection Hrun as <-.
    exists 0. cbn [c_fout c_exit]. rewrite slice_zero, app_nil_r.
    repeat split; try lia. discriminate. }
  destruct (Z_lt_le_dec (o_room fout) (MIN len sizeof_buf)) as [Hfull|Hfits].
  - cbn [copy_loop] in Hrun.
    replace (len =? 0) with false in Hrun by (symmetry; apply Z.eqb_neq; lia).
    rewrite fread_full in Hrun by lia. cbn [Z.eqb Pos.eqb negb] in Hrun.
    unfold fwrite in Hrun.
    set (n := Z.max 0 (Z.min (MIN len sizeof_buf * 1) (o_room fout))) in *.
    rewrite (Z.div_small n) in Hrun by lia.
    cbn [Z.eqb negb] in Hrun. injection Hrun as <-.
    exists n. cbn [c_exit c_fout o_data].
    split; [lia|]. split; [lia|]. split; [|discriminate].
    f_equal. rewrite firstn_app.
    rewrite slice_length by lia.
    replace (Z.to_nat n - Z.to_nat (MIN len sizeof_buf))%nat with 0%nat by lia.
    cbn [firstn]. rewrite app_nil_r. unfold slice. rewrite firstn_firstn.
    f_equal. lia.
  - rewrite copy_loop_step in Hrun by lia.
    apply IH in Hrun; cbn [i_pos i_data o_room]; try lia.
    destruct Hrun as (m & Hm & Hfit & Hsink & Hend).
    cbn [i_pos i_data o_data o_room] in *.
    exists (MIN len sizeof_buf + m).
    split; [lia|]. split; [lia|]. split.
    + rewrite Hsink, <- app_assoc, <- slice_plus by lia. reflexivity.
    + intros He. specialize (Hend He). lia.
Qed.

Lemma main_usage fuel env argv :
  Zlength argv < 2 ->
  main fuel env argv
  = Some (mkResult EXIT_FAILURE None None
            (fprintf_stderr
               ("Usage: " ++ nth 0%nat argv EmptyString ++ " <input> [<output>]" ++ nl)
               proc0)).
Proof.
  intros Hargc. unfold main.
  replace (Zlength argv <? 2) with true by (symmetry; apply Z.ltb_lt; lia).
  reflexivity.
Qed.

Lemma main_input_unopened fuel env argv e :
  2 <= Zlength argv ->
  env_open_r env (nth 1%nat argv EmptyString) = OpenFailed e ->
  main fuel env argv
  = Some (mkResult EXIT_FAILURE None None
            (fprintf_stderr
               ("Error opening " ++ nth 1%nat argv EmptyString ++ ": "
                ++ strerror e ++ nl)
               (set_errno e (log (Efopen Fin false) proc0)))).
Proof.
  intros Hargc Hin. unfold main.
  replace (Zlength argv <? 2) with false by (symmetry; apply Z.ltb_ge; lia).
  unfold fopen_r. rewrite Hin. reflexivity.
Qed.

Lemma main_output_unopened fuel env argv data seekable e :
  2 < Zlength argv ->
  env_open_r env (nth 1%nat argv EmptyString) = Opened (data, seekable) ->
  env_open_w env (nth 2%nat argv EmptyString) = OpenFailed e ->
  main fuel env argv
  = Some (mkResult EXIT_FAILURE (Some (mkIn data 0 seekable)) None
            (fprintf_stderr
               ("Error opening " ++ nth 2%nat argv EmptyString ++ ": "
                ++ strerror e ++ nl)
               (fclose Fin
                  (set_errno e
                     (log (Efopen Fout false) (log (Efopen Fin true) proc0)))))).
Proof.
  intros Hargc Hin Hw. unfold main.
  replace (Zlength argv <? 2) with false by (symmetry; apply Z.ltb_ge; lia).
  unfold fopen_r. rewrite Hin.
  replace (2 <? Zlength argv) with true by (symmetry; apply Z.ltb_lt; lia).
  unfold fopen_w. rewrite Hw. reflexivity.
Qed.

Lemma copy_data_stderr fuel buf fin fout offset len p c :
  0 <= len < 2 ^ 64 ->
  copy_data fuel buf fin fout offset len p = Some c ->
  p_err (c_proc c) = p_err p \/ exists msg, p_err (c_proc c) = p_err p ++ [msg].
Proof.
  intros Hlen Hrun. destruct (seek_ok fin offset) eqn:Hs.
  - destruct (copy_data_spec _ _ _ _ _ _ _ _ Hlen Hs Hrun)
      as (n & evs & _ & Hcase & _ & _).
    unfold loop_outcome in Hcase. destruct (c_exit c).
    + contradiction.
    + right. eexists. apply Hcase.
    + right. eexists. apply Hcase.
    + left. apply Hcase.
  - destruct (copy_data_seek_fail fuel buf fin fout offset len p Hs) as (e & E).
    rewrite E in Hrun. injection Hrun as <-. right. eexists. reflexivity.
Qed.

(* ------------------------------------------------------------------ *)
(** ** Properties of [copy_data] *)

(** C1, as the specification states it, fails: a source that holds
    [offset + length] bytes is not enough for the copy to succeed.  With a
    source that cannot be positioned (a pipe) [copy_data] returns at the
    seek error and writes nothing; with a sink that takes only 100 bytes of
    a chunk of 16384 it returns at the write error; in both cases the sink
    does not hold the requested range. *)
Lemma copy_exact_counterexample :
  (0 + 4 <= Zlength [x01; x02; x03; x04]
   /\ copy_data 2 [] (mkIn [x01; x02; x03; x04] 0 false) (mkOut [] 100) 0 4 proc0
      = Some (mkCopy ret_seek_error
                (mkIn [x01; x02; x03; x04] 0 false)
                (mkOut [] 100)
                (mkProc [] ["Error seeking data: Illegal seek"%string]
                   [Efseek 0 false] ESPIPE)))
  /\ (7 + 16384 <= Zlength (ramp 16400)
      /\ copy_data 2 [] (mkIn (ramp 16400) 0 true) (mkOut [] 100) 7 16384 proc0
         = Some (mkCopy ret_write_error
                   (mkIn (ramp 16400) 16391 true)
                   (mkOut (slice 7 100 (ramp 16400)) 0)
                   (mkProc [] [("Error writing data" ++ nl)%string]
                      [Efseek 7 true; Efread 16384 1 true; Efwrite 16384 1 false]
                      ENOSPC))).
Proof.
  split; split; try (vm_compute; discriminate); vm_compute; reflexivity.
Qed.

(** C1 (amended): when the seek to [offset] succeeds, the source holds at
    least [offset + len] bytes and the sink accepts [len] bytes, [copy_data]
    returns at the end of its body without an error message, and the sink
    has gained exactly [source[offset : offset+len]]; the transfer is a
    sequence of reads each followed by a write of the same size, of at most
    16384 bytes each, whatever [len] is. *)
Theorem copy_exact fuel buf fin fout offset len p :
  i_seekable fin = true ->
  0 <= offset ->
  0 <= len < 2 ^ 64 ->
  offset + len <= Zlength (i_data fin) ->
  len <= o_room fout ->
  loop_bound len <= Z.of_nat fuel ->
  exists c evs,
    copy_data fuel buf fin fout offset len p = Some c
    /\ c_exit c = ret_end
    /\ p_err (c_proc c) = p_err p
    /\ o_data (c_fout c) = o_data fout ++ slice offset len (i_data fin)
    /\ p_trace (c_proc c) = p_trace p ++ Efseek offset true :: evs
    /\ chunked evs = true.
Proof.
  intros Hsk Hoff Hlen Hsrc Hroom Hfuel.
  assert (Hs : seek_ok fin offset = true).
  { unfold seek_ok. rewrite Hsk. apply Z.leb_le. exact Hoff. }
  destruct (copy_data_returns fuel buf fin fout offset len p Hlen Hfuel) as (c & Hrun).
  destruct (copy_data_spec _ _ _ _ _ _ _ _ Hlen Hs Hrun)
    as (n & evs & Hn & Hcase & Htr & Hch).
  exists c, evs. split; [exact Hrun|].
  unfold loop_outcome in Hcase. cbn [i_pos i_data] in Hcase.
  destruct (c_exit c).
  - contradiction.
  - destruct Hcase as (Hlt & _ & Hend & _). rewrite MIN_spec in Hend. lia.
  - destruct Hcase as (Hlt & _ & _ & Hfull & _). rewrite MIN_spec in Hfull. lia.
  - destruct Hcase as (_ & _ & _ & Hsink & Herr). repeat split; assumption.
Qed.

Lemma copy_exact_witness :
  exists c evs,
    copy_data 3 [] (mkIn (ramp 16400) 0 true) (mkOut [] 100000) 7 16390 proc0
      = Some c
    /\ c_exit c = ret_end
    /\ p_err (c_proc c) = p_err proc0
    /\ o_data (c_fout c) = o_data (mkOut [] 100000) ++ slice 7 16390 (ramp 16400)
    /\ p_trace (c_proc c) = p_trace proc0 ++ Efseek 7 true :: evs
    /\ chunked evs = true.
Proof.
  apply (copy_exact 3 [] (mkIn (ramp 16400) 0 true) (mkOut [] 100000) 7 16390 proc0).
  - reflexivity.
  - lia.
  - lia.
  - vm_compute. discriminate.
  - cbn. lia.
  - vm_compute. discriminate.
Defined.




(** C7, as the specification states it, fails: with a source that cannot
    be positioned, a copy of length zero does not succeed; it returns at
    the seek error. *)
Lemma copy_zero_length_counterexample :
  copy_data 1 [] (mkIn [x01; x02] 0 false) (mkOut [] 100) 0 0 proc0
  = Some (mkCopy ret_seek_error (mkIn [x01; x02] 0 false) (mkOut [] 100)
            (mkProc [] ["Error seeking data: Illegal seek"%string]
               [Efseek 0 false] ESPIPE)).
Proof. reflexivity. Qed.

(** C7 (amended): for every source, sink and offset, [copy_data] with
    length zero calls neither [fread] nor [fwrite] (its only call is the
    seek) and leaves the sink as it was; it returns at the end of its body
    without an error message when the seek succeeds, and at the seek error
    otherwise. *)
Theorem copy_zero_length fuel buf fin fout offset p :
  exists c,
    copy_data (S fuel) buf fin fout offset 0 p = Some c
    /\ p_trace (c_proc c) = p_trace p ++ [Efseek offset (seek_ok fin offset)]
    /\ c_fout c = fout
    /\ c_exit c = (if seek_ok fin offset then ret_end else ret_seek_error)
    /\ (if seek_ok fin offset
        then p_err (c_proc c) = p_err p
        else exists e,
               p_err (c_proc c)
               = p_err p ++ [("Error seeking data: " ++ strerror e)%string]).
Proof.
  destruct (seek_ok fin offset) eqn:Hs.
  - rewrite copy_data_seek_ok by exact Hs. cbn [copy_loop Z.eqb].
    eexists. split; [reflexivity|]. repeat split.
  - destruct (copy_data_seek_fail (S fuel) buf fin fout offset 0 p Hs) as (e & E).
    rewrite E. eexists. split; [reflexivity|]. repeat split.
    exists e. reflexivity.
Qed.

(** C9: for every length and whatever the reads and writes do, the loop of
    [copy_data] returns within [loop_bound len] evaluations of its
    condition.  An iteration whose read and write succeed transfers
    [MIN(len, 16384)] bytes, a positive number that is at most [len], and is
    followed by the run of the loop on the strictly smaller remaining
    length, on the advanced source and the extended sink.  So when every
    chunk is read and written the remaining length reaches zero: the loop
    leaves by its condition after [ceil(len / 16384)] reads and as many
    writes, of 16384 bytes each but for a shorter last one, having moved
    exactly [len] bytes. *)
Theorem copy_loop_terminates fuel buf fin fout len p :
  0 <= len < 2 ^ 64 ->
  loop_bound len <= Z.of_nat fuel ->
  (exists c, copy_loop fuel buf fin fout len p = Some c)
  /\ (0 < len -> 0 <= i_pos fin ->
      i_pos fin + MIN len sizeof_buf <= Zlength (i_data fin) ->
      MIN len sizeof_buf <= o_room fout ->
      0 < MIN len sizeof_buf <= len
      /\ 0 <= size_t (len - MIN len sizeof_buf) < len
      /\ copy_loop fuel buf fin fout len p
         = copy_loop (Nat.pred fuel)
             (slice (i_pos fin) (MIN len sizeof_buf) (i_data fin)
              ++ skipn (Z.to_nat (MIN len sizeof_buf)) buf)
             (mkIn (i_data fin) (i_pos fin + MIN len sizeof_buf) (i_seekable fin))
             (mkOut (o_data fout
                     ++ slice (i_pos fin) (MIN len sizeof_buf) (i_data fin))
                (o_room fout - MIN len sizeof_buf))
             (size_t (len - MIN len sizeof_buf))
             (log (Efwrite (MIN len sizeof_buf) 1 true)
                (log (Efread (MIN len sizeof_buf) 1 true) p)))
  /\ (0 <= i_pos fin ->
      i_pos fin + len <= Zlength (i_data fin) ->
      len <= o_room fout ->
      exists c,
        copy_loop fuel buf fin fout len p = Some c
        /\ c_exit c = ret_end
        /\ c_fin c = mkIn (i_data fin) (i_pos fin + len) (i_seekable fin)
        /\ c_fout c
           = mkOut (o_data fout ++ slice (i_pos fin) len (i_data fin))
               (o_room fout - len)
        /\ p_trace (c_proc c) = p_trace p ++ transfer_events len
        /\ Zlength (transfer_events len) = 2 * (loop_bound len - 1)).
Proof.
  intros Hlen Hfuel. split; [now apply copy_loop_returns|]. split.
  - intros Hpos Hstart Hin Hroom.
    assert (Hlen' : 0 < len < 2 ^ 64) by lia.
    destruct (chunk_bounds len Hlen') as (Hsz & _ & Hrest).
    split; [exact Hsz|]. split; [exact Hrest|].
    destruct fuel as [|fuel]; [pose proof (loop_bound_pos len); lia|].
    cbn [Nat.pred]. rewrite copy_loop_step by assumption.
    rewrite size_t_small by (rewrite size_t_small in Hrest; lia).
    reflexivity.
  - intros Hstart Hsrc Hroom.
    destruct (copy_loop_transfer fuel buf fin fout len p Hlen Hstart Hsrc Hroom Hfuel)
      as (c & Hc & Hexit & Hfin & Hfout & _ & _ & Htr).
    exists c. repeat split; try assumption.
    rewrite transfer_events_length by lia. unfold loop_bound. f_equal. lia.
Qed.

Lemma copy_loop_terminates_witness :
  (exists c,
      copy_loop 4 [] (mkIn (ramp 40000) 0 true) (mkOut [] 50000) 40000 proc0
      = Some c)
  /\ (0 < MIN 40000 sizeof_buf <= 40000
      /\ 0 <= size_t (40000 - MIN 40000 sizeof_buf) < 40000
      /\ copy_loop 4 [] (mkIn (ramp 40000) 0 true) (mkOut [] 50000) 40000 proc0
         = copy_loop (Nat.pred 4)
             (slice (i_pos (mkIn (ramp 40000) 0 true)) (MIN 40000 sizeof_buf)
                (i_data (mkIn (ramp 40000) 0 true))
              ++ skipn (Z.to_nat (MIN 40000 sizeof_buf)) [])
             (mkIn (i_data (mkIn (ramp 40000) 0 true))
                (i_pos (mkIn (ramp 40000) 0 true) + MIN 40000 sizeof_buf)
                (i_seekable (mkIn (ramp 40000) 0 true)))
             (mkOut (o_data (mkOut [] 50000)
                     ++ slice (i_pos (mkIn (ramp 40000) 0 true))
                          (MIN 40000 sizeof_buf)
                          (i_data (mkIn (ramp 40000) 0 true)))
                (o_room (mkOut [] 50000) - MIN 40000 sizeof_buf))
             (size_t (40000 - MIN 40000 sizeof_buf))
             (log (Efwrite (MIN 40000 sizeof_buf) 1 true)
                (log (Efread (MIN 40000 sizeof_buf) 1 true) proc0)))
  /\ (exists c,
        copy_loop 4 [] (mkIn (ramp 40000) 0 true) (mkOut [] 50000) 40000 proc0
        = Some c
        /\ c_exit c = ret_end
        /\ c_fin c
           = mkIn (i_data (mkIn (ramp 40000) 0 true))
               (i_pos (mkIn (ramp 40000) 0 true) + 40000)
               (i_seekable (mkIn (ramp 40000) 0 true))
        /\ c_fout c
           = mkOut (o_data (mkOut [] 50000)
                    ++ slice (i_pos (mkIn (ramp 40000) 0 true)) 40000
                         (i_data (mkIn (ramp 40000) 0 true)))
               (o_room (mkOut [] 50000) - 40000)
        /\ p_trace (c_proc c) = p_trace proc0 ++ transfer_events 40000
        /\ Zlength (transfer_events 40000) = 2 * (loop_bound 40000 - 1)).
Proof.
  destruct (copy_loop_terminates 4 [] (mkIn (ramp 40000) 0 true)
              (mkOut [] 50000) 40000 proc0) as (H1 & H2 & H3).
  - lia.
  - vm_compute. discriminate.
  - split; [exact H1|]. split; [apply H2 | apply H3];
      first [lia | vm_compute; discriminate | vm_compute; reflexivity].
Defined.

(** The calls of the run of the witness above: three chunks, of 16384,
    16384 and 7232 bytes. *)
Example transfer_events_three_chunks :
  transfer_events 40000
  = [Efread 16384 1 true; Efwrite 16384 1 true;
     Efread 16384 1 true; Efwrite 16384 1 true;
     Efread 7232 1 true; Efwrite 7232 1 true].
Proof. reflexivity. Qed.

(** A run that ends at the read error: the source holds one whole chunk
    and 9 more bytes after offset 7, the request is for 20000 bytes; the
    sink receives the whole chunk and nothing else, whatever the buffer held
    at the start. *)
Example short_read_sample :
  copy_data 3 (repeat xee 5) (mkIn (ramp 16400) 0 true) (mkOut [] 100000)
    7 20000 proc0
  = Some (mkCopy ret_read_error
            (mkIn (ramp 16400) 16400 true)
            (mkOut (slice 7 16384 (ramp 16400)) 83616)
            (mkProc [] [("Error reading data" ++ nl)%string]
               [Efseek 7 true; Efread 16384 1 true; Efwrite 16384 1 true;
                Efread 3616 1 false] E0)).
Proof. vm_compute. reflexivity. Qed.



(* ------------------------------------------------------------------ *)
(** ** Properties of the header parsing in [main] *)

Lemma alter_breaks_magic (i : Z) (b : byte) (data : list byte) :
  sizeof_header <= Zlength data ->
  has_msdos_magic data /\ has_zimg_magic data /\ has_linux_magic data ->
  in_magic i ->
  b <> nth (Z.to_nat i) data x00 ->
  ~ has_msdos_magic (alter i b data)
  \/ ~ has_zimg_magic (alter i b data)
  \/ ~ has_linux_magic (alter i b data).
Proof.
  unfold has_msdos_magic, has_zimg_magic, has_linux_magic, in_magic.
  change sizeof_header with 64. change (offsetof msdos_magic) with 0.
  change (offsetof zimg) with 4. change (offsetof linux_magic) with 56.
  intros Hlen (Hm & Hz & Hl) Hi Hb.
  assert (Hnth : nth (Z.to_nat i) (alter i b data) x00 = b)
    by (apply alter_nth; lia).
  destruct Hi as [Hi|[Hi|Hi]]; [left|right; left|right; right];
    intros H'; apply Hb; rewrite <- Hnth; symmetry.
  - apply (slice_eq_nth 0 2); [lia | lia | congruence].
  - apply (slice_eq_nth 4 4); [lia | lia | congruence].
  - apply (slice_eq_nth 56 4); [lia | lia | congruence].
Qed.

(** C2: in every run in which the streams open and the input holds a
    complete header, a mismatch in [msdos_magic], [zimg] or [linux_magic]
    makes [main] print "Error: input is not a kernel EFI image" and return
    [EXIT_FAILURE], with no report and no copy; this is so in particular for
    an image obtained from a well-formed one by altering a single byte of
    one of the three members; and no run that returns [EXIT_SUCCESS] has a
    header in which one of the three checks fails. *)
Theorem bad_magic_rejected :
  (forall fuel env argv data seekable,
      opens env argv data seekable ->
      sizeof_header <= Zlength data ->
      ~ has_msdos_magic data \/ ~ has_zimg_magic data \/ ~ has_linux_magic data ->
      exists r,
        main fuel env argv = Some r
        /\ r_status r = EXIT_FAILURE
        /\ p_out (r_proc r) = []
        /\ p_err (r_proc r) = [("Error: input is not a kernel EFI image" ++ nl)%string]
        /\ p_trace (r_proc r) = open_events argv ++ [Efread sizeof_header 1 true])
  /\ (forall fuel env argv data seekable i b,
         opens env argv (alter i b data) seekable ->
         sizeof_header <= Zlength data ->
         has_msdos_magic data /\ has_zimg_magic data /\ has_linux_magic data ->
         in_magic i ->
         b <> nth (Z.to_nat i) data x00 ->
         exists r,
           main fuel env argv = Some r
           /\ r_status r = EXIT_FAILURE
           /\ p_err (r_proc r)
              = [("Error: input is not a kernel EFI image" ++ nl)%string])
  /\ (forall fuel env argv r,
         main fuel env argv = Some r ->
         r_status r = EXIT_SUCCESS ->
         exists data seekable,
           opens env argv data seekable
           /\ sizeof_header <= Zlength data
           /\ has_msdos_magic data /\ has_zimg_magic data /\ has_linux_magic data).
Proof.
  assert (Hreject : forall fuel env argv data seekable,
             opens env argv data seekable ->
             sizeof_header <= Zlength data ->
             ~ has_msdos_magic data \/ ~ has_zimg_magic data \/ ~ has_linux_magic data ->
             exists r,
               main fuel env argv = Some r
               /\ r_status r = EXIT_FAILURE
               /\ p_out (r_proc r) = []
               /\ p_err (r_proc r)
                  = [("Error: input is not a kernel EFI image" ++ nl)%string]
               /\ p_trace (r_proc r)
                  = open_events argv ++ [Efread sizeof_header 1 true]).
  { intros fuel env argv data seekable Hopens Hlen Hbad.
    apply (main_bad_magic fuel env argv data seekable); [exact Hopens | exact Hlen |].
    destruct (magic_mismatch (header_of env data)) eqn:Hm; [reflexivity|].
    apply (header_of_magic env data Hlen) in Hm. tauto. }
  split; [exact Hreject|]. split.
  - intros fuel env argv data seekable i b Hopens Hlen Hok Hi Hb.
    assert (Hi' : 0 <= i < Zlength data).
    { change sizeof_header with 64 in Hlen. unfold in_magic in Hi.
      change (offsetof msdos_magic) with 0 in Hi.
      change (offsetof zimg) with 4 in Hi.
      change (offsetof linux_magic) with 56 in Hi. lia. }
    destruct (Hreject fuel env argv (alter i b data) seekable Hopens)
      as (r & Hr & Hst & _ & Herr & _).
    + rewrite alter_length by exact Hi'. exact Hlen.
    + now apply alter_breaks_magic.
    + exists r. repeat split; assumption.
  - exact main_success_inv.
Qed.

Lemma bad_magic_rejected_witness :
  (exists r,
      main 2 (sample_env BigEndian mx_image true 100) sample_argv = Some r
      /\ r_status r = EXIT_FAILURE
      /\ p_out (r_proc r) = []
      /\ p_err (r_proc r) = [("Error: input is not a kernel EFI image" ++ nl)%string]
      /\ p_trace (r_proc r) = open_events sample_argv ++ [Efread sizeof_header 1 true])
  /\ (exists r,
         main 2 (sample_env LittleEndian
                   (alter 58 x83 (sample_header 64 4 ++ [xaa; xbb; xcc; xdd]))
                   true 100)
              sample_argv = Some r
         /\ r_status r = EXIT_FAILURE
         /\ p_err (r_proc r)
            = [("Error: input is not a kernel EFI image" ++ nl)%string]).
Proof.
  split.
  - apply (proj1 bad_magic_rejected 2%nat (sample_env BigEndian mx_image true 100)
             sample_argv mx_image true).
    + split; [vm_compute; discriminate|].
      split; [eexists; split; reflexivity|].
      intros _. exists 100. reflexivity.
    + vm_compute. discriminate.
    + left. vm_compute. discriminate.
  - apply (proj1 (proj2 bad_magic_rejected) 2%nat
             (sample_env LittleEndian
                (alter 58 x83 (sample_header 64 4 ++ [xaa; xbb; xcc; xdd])) true 100)
             sample_argv (sample_header 64 4 ++ [xaa; xbb; xcc; xdd]) true 58 x83).
    + split; [vm_compute; discriminate|].
      split; [eexists; split; reflexivity|].
      intros _. exists 100. reflexivity.
    + vm_compute. discriminate.
    + repeat split; reflexivity.
    + right. right. vm_compute. split; [discriminate | reflexivity].
    + vm_compute. discriminate.
Defined.

(** C3, as the specification states it, fails: the header that [main]
    reads is 64 bytes long, not 60.  An input that consists of the first 60
    bytes of a well-formed header, the three magic numbers included, is
    rejected as too short, by a read of one item of 64 bytes. *)
Lemma header_size_counterexample :
  sizeof_header <> 60
  /\ Zlength (firstn 60 (sample_header 64 0)) = 60
  /\ main 1 (sample_env LittleEndian (firstn 60 (sample_header 64 0)) true 100)
          ["efiextract"; "vmlinuz.efi"]%string
     = Some (mkResult EXIT_FAILURE
               (Some (mkIn (firstn 60 (sample_header 64 0)) 60 true)) None
               (mkProc [] [("Error reading EFI zboot header" ++ nl)%string]
                  [Efopen Fin true; Efread 64 1 false; Efclose Fin] E0)).
Proof.
  split; [vm_compute; discriminate|]. split; reflexivity.
Qed.

(** C3 (amended): the header has a fixed size of 64 bytes
    (2+2+4+4+4+8+32+4+4); in every run in which the streams open, the first
    call on the input is a read of one item of exactly 64 bytes at the start
    of the stream, and when the input provides fewer than 64 bytes [main]
    prints "Error reading EFI zboot header" and returns [EXIT_FAILURE]. *)
Theorem header_read_is_64_bytes :
  sizeof_header = 64
  /\ (forall fuel env argv data seekable,
         opens env argv data seekable ->
         main_fuel <= Z.of_nat fuel ->
         exists r evs,
           main fuel env argv = Some r
           /\ p_trace (r_proc r)
              = open_events argv
                ++ Efread 64 1 (64 <=? Zlength data) :: evs)
  /\ (forall fuel env argv data seekable,
         opens env argv data seekable ->
         Zlength data < 64 ->
         exists r,
           main fuel env argv = Some r
           /\ r_status r = EXIT_FAILURE
           /\ p_out (r_proc r) = []
           /\ p_err (r_proc r) = [("Error reading EFI zboot header" ++ nl)%string]).
Proof.
  split; [reflexivity|]. split.
  - intros fuel env argv data seekable Hopens Hfuel.
    destruct (main_returns fuel env argv Hfuel) as (r & Hrun).
    exists r. cut (exists evs, p_trace (r_proc r)
                     = open_events argv ++ Efread 64 1 (64 <=? Zlength data) :: evs).
    { intros (evs & Hevs). exists evs. split; [exact Hrun | exact Hevs]. }
    destruct (Z.leb_spec 64 (Zlength data)) as [Hlen|Hshort].
    2: { destruct (main_short_header fuel env argv data seekable Hopens Hshort)
           as (r' & Hr' & _ & _ & _ & Htr).
         rewrite Hrun in Hr'. injection Hr' as <-. eexists. exact Htr. }
    destruct (magic_mismatch (header_of env data)) eqn:Hm.
    { destruct (main_bad_magic fuel env argv data seekable Hopens Hlen Hm)
        as (r' & Hr' & _ & _ & _ & Htr).
      rewrite Hrun in Hr'. injection Hr' as <-. eexists. exact Htr. }
    destruct (Z.ltb_spec 2 (Zlength argv)) as [Hargc|Hargc].
    + destruct Hopens as (H2 & Hin & Hout).
      destruct (Hout Hargc) as (room & Hw).
      rewrite (main_with_output fuel env argv data seekable room) in Hrun;
        [|repeat split; assumption|exact Hargc|exact Hw|exact Hlen|exact Hm].
      match type of Hrun with
      | context [ copy_data ?f ?b ?i ?o ?off ?l ?q ] =>
          destruct (copy_data f b i o off l q) as [c|] eqn:Hc; [|discriminate]
      end.
      injection Hrun as <-.
      apply copy_data_trace_extends in Hc. destruct Hc as (evs & Hc).
      cbn [r_proc fclose log p_trace]. rewrite Hc.
      cbn [printf_stdout log p_trace]. unfold open_events.
      replace (2 <? Zlength argv) with true by (symmetry; apply Z.ltb_lt; lia).
      eexists. cbn [app]. rewrite <- !app_assoc. cbn [app]. reflexivity.
    + assert (Hargc2 : Zlength argv = 2) by (destruct Hopens; lia).
      rewrite (main_no_output fuel env argv data seekable) in Hrun;
        [|exact Hopens|exact Hargc2|exact Hlen|exact Hm].
      injection Hrun as <-. unfold open_events.
      replace (2 <? Zlength argv) with false by (symmetry; apply Z.ltb_ge; lia).
      eexists. reflexivity.
  - intros fuel env argv data seekable Hopens Hshort.
    destruct (main_short_header fuel env argv data seekable Hopens Hshort)
      as (r & Hr & Hst & Hout & Herr & _).
    exists r. repeat split; assumption.
Qed.

Lemma header_read_is_64_bytes_witness :
  (exists r evs,
      main (Z.to_nat main_fuel)
        (sample_env LittleEndian (sample_header 64 4 ++ [xaa; xbb; xcc; xdd]) true 100)
        sample_argv = Some r
      /\ p_trace (r_proc r)
         = open_events sample_argv
           ++ Efread 64 1
                (64 <=? Zlength (sample_header 64 4 ++ [xaa; xbb; xcc; xdd])) :: evs)
  /\ (exists r,
         main 1 (sample_env LittleEndian (firstn 63 (sample_header 64 0)) true 100)
           sample_argv = Some r
         /\ r_status r = EXIT_FAILURE
         /\ p_out (r_proc r) = []
         /\ p_err (r_proc r) = [("Error reading EFI zboot header" ++ nl)%string]).
Proof.
  split.
  - apply (proj1 (proj2 header_read_is_64_bytes) (Z.to_nat main_fuel)
             (sample_env LittleEndian (sample_header 64 4 ++ [xaa; xbb; xcc; xdd])
                true 100)
             sample_argv (sample_header 64 4 ++ [xaa; xbb; xcc; xdd]) true).
    + split; [vm_compute; discriminate|].
      split; [eexists; split; reflexivity|].
      intros _. exists 100. reflexivity.
    + vm_compute. discriminate.
  - apply (proj2 (proj2 header_read_is_64_bytes) 1%nat
             (sample_env LittleEndian (firstn 63 (sample_header 64 0)) true 100)
             sample_argv (firstn 63 (sample_header 64 0)) true).
    + split; [vm_compute; discriminate|].
      split; [eexists; split; reflexivity|].
      intros _. exists 100. reflexivity.
    + vm_compute. reflexivity.
Defined.

(** C4: for every unsigned 32-bit value [x] and on either host byte order,
    decoding the little-endian wire encoding of [x] the way [main] decodes
    [payload_offset], [payload_size] and [pe_header_offset] (the wire bytes
    are the object representation of the member, which [fixendian] then
    converts) gives [x] back. *)
Theorem decode_encode_le (host : byte_order) (x : Z) :
  0 <= x < 2 ^ 32 ->
  decode host (encode_le x) = x
  /\ fixendian host (member32 host payload_offset (sample_header x 0)) = x
  /\ fixendian host (member32 host payload_size (sample_header 0 x)) = x.
Proof.
  intros Hx. split; [now apply load_encode_le|].
  split; apply (load_encode_le host x Hx).
Qed.

Lemma decode_encode_le_witness :
  decode BigEndian (encode_le 305419896) = 305419896
  /\ fixendian BigEndian (member32 BigEndian payload_offset (sample_header 305419896 0))
     = 305419896
  /\ fixendian BigEndian (member32 BigEndian payload_size (sample_header 0 305419896))
     = 305419896.
Proof.
  apply (decode_encode_le BigEndian 305419896). lia.
Defined.

(** The end-to-end scenario of the specification, with the payload behind
    the 64-byte header, on a big-endian host: the report names "gzip",
    offset 64 and size 4, and the sink receives the four payload bytes. *)
Example main_extracts_sample :
  main 2 (sample_env BigEndian (sample_header 64 4 ++ [xaa; xbb; xcc; xdd]) true 100)
       sample_argv
  = Some (mkResult EXIT_SUCCESS
            (Some (mkIn (sample_header 64 4 ++ [xaa; xbb; xcc; xdd]) 68 true))
            (Some (mkOut [xaa; xbb; xcc; xdd] 96))
            (mkProc [("Compression:    gzip" ++ nl ++
                      "Payload offset: 64 Bytes" ++ nl ++
                      "Payload size:   4 Bytes" ++ nl)%string]
               []
               [Efopen Fin true; Efopen Fout true; Efread 64 1 true;
                Efseek 64 true; Efread 4 1 true; Efwrite 4 1 true;
                Efclose Fout; Efclose Fin]
               E0)).
Proof. reflexivity. Qed.

(* ------------------------------------------------------------------ *)
(** ** The exit paths of [main] *)

(** C6, evaluated on the code: when the copy of the payload fails, be it
    at the read (the image ends two bytes into a payload of four), at the
    write (the device takes only 100 bytes of a payload that is one whole
    chunk of 16384) or at the seek (the input cannot be positioned),
    [copy_data] prints its message and [main] still returns
    [EXIT_SUCCESS]. *)
Theorem copy_failure_exits_with_success :
  (exists r,
      main 2 (sample_env LittleEndian (sample_header 64 4 ++ [xaa; xbb]) true 100)
           sample_argv = Some r
      /\ p_err (r_proc r) = [("Error reading data" ++ nl)%string]
      /\ r_status r = EXIT_SUCCESS)
  /\ (exists r,
         main 2 (sample_env LittleEndian
                   (sample_header 64 16384 ++ ramp 16384) true 100)
              sample_argv = Some r
         /\ p_err (r_proc r) = [("Error writing data" ++ nl)%string]
         /\ r_status r = EXIT_SUCCESS)
  /\ (exists r,
         main 2 (sample_env LittleEndian
                   (sample_header 64 4 ++ [xaa; xbb; xcc; xdd]) false 100)
              sample_argv = Some r
         /\ p_err (r_proc r) = ["Error seeking data: Illegal seek"%string]
         /\ r_status r = EXIT_SUCCESS).
Proof.
  repeat split; eexists; (split; [vm_compute; reflexivity|]); split; reflexivity.
Qed.

(** C8, evaluated on the code: on the magic-mismatch path [main] returns
    without closing the input stream (nor the output stream it has opened),
    whereas the truncated-header path, the success path and the copy-failure
    path do close it. *)
Theorem bad_magic_leaves_input_open :
  (exists r,
      main 2 (sample_env LittleEndian mx_image true 100) sample_argv = Some r
      /\ r_status r = EXIT_FAILURE
      /\ p_trace (r_proc r) = [Efopen Fin true; Efopen Fout true; Efread 64 1 true]
      /\ ~ In (Efclose Fin) (p_trace (r_proc r)))
  /\ (exists r,
         main 2 (sample_env LittleEndian (firstn 10 mx_image) true 100) sample_argv
         = Some r
         /\ r_status r = EXIT_FAILURE
         /\ In (Efclose Fin) (p_trace (r_proc r)))
  /\ (exists r,
         main 2 (sample_env LittleEndian (sample_header 64 4 ++ [xaa; xbb]) true 100)
              sample_argv = Some r
         /\ In (Efclose Fin) (p_trace (r_proc r))).
Proof.
  split; [|split].
  - eexists. split; [vm_compute; reflexivity|]. split; [reflexivity|].
    split; [reflexivity|]. cbn. intros [H|[H|[H|[]]]]; discriminate.
  - eexists. split; [vm_compute; reflexivity|]. split; [reflexivity|].
    cbn. tauto.
  - eexists. split; [vm_compute; reflexivity|]. cbn. tauto.
Qed.

(* ------------------------------------------------------------------ *)
(** ** Further properties of [fixendian], [copy_data] and [main] *)

(** X1: the program behaves the same on a little-endian and on a
    big-endian host: a wire field decodes to the same value, and [main]
    gives the same result. *)
Theorem main_host_independent fuel argv h h' open_r open_w hdr buf same :
  (forall bs, decode h bs = decode h' bs)
  /\ main fuel (mkEnv h open_r open_w hdr buf same) argv
     = main fuel (mkEnv h' open_r open_w hdr buf same) argv.
Proof.
  split; [intros bs; apply decode_host_independent | apply main_files_only].
Qed.

(** X2: the result of [copy_data] (exit, streams, messages, calls) does not
    depend on what the local buffer holds when the function is entered:
    nothing of the uninitialised buffer reaches the sink. *)
Theorem copy_data_ignores_buffer fuel buf buf' fin fout offset len p :
  0 <= len < 2 ^ 64 ->
  copy_data fuel buf fin fout offset len p
  = copy_data fuel buf' fin fout offset len p.
Proof. apply copy_data_ignores_buffer_aux. Qed.

Lemma copy_data_ignores_buffer_witness :
  copy_data 3 (repeat xee 40) (mkIn (ramp 16400) 0 true) (mkOut [] 100) 7 20000 proc0
  = copy_data 3 (repeat x11 7) (mkIn (ramp 16400) 0 true) (mkOut [] 100) 7 20000 proc0.
Proof.
  apply (copy_data_ignores_buffer 3 (repeat xee 40) (repeat x11 7)
           (mkIn (ramp 16400) 0 true) (mkOut [] 100) 7 20000 proc0).
  lia.
Defined.

(** X3: the result of [main] does not depend on the indeterminate initial
    content of its automatic objects, the struct [header] and the buffer of
    [copy_data]: a member of the header is only used after a read that has
    filled all 64 bytes. *)
Theorem main_ignores_indeterminate_memory fuel argv h open_r open_w
    hdr hdr' buf buf' same :
  main fuel (mkEnv h open_r open_w hdr buf same) argv
  = main fuel (mkEnv h open_r open_w hdr' buf' same) argv.
Proof. apply main_files_only. Qed.

(** X4: extraction end to end.  When the input can be positioned, the
    input stream delivers a complete header with the three magic numbers and
    the payload range that the header declares, and the output accepts the
    payload, [main] prints the report and no error, writes exactly
    [input[payload_offset : payload_offset + payload_size]] to the output in
    chunks of [sizeof(buf)] bytes, closes the output and then the input, and
    returns [EXIT_SUCCESS].  ([data] is what the input stream delivers once
    both streams are open: nothing at all when the output argument names the
    input file, so that such a run is not among these.) *)
Theorem main_extracts_payload fuel env argv data room :
  opens env argv data true ->
  2 < Zlength argv ->
  env_open_w env (nth 2%nat argv EmptyString) = Opened room ->
  sizeof_header <= Zlength data ->
  has_msdos_magic data /\ has_zimg_magic data /\ has_linux_magic data ->
  payload_offset_of (env_host env) data + payload_size_of (env_host env) data
    <= Zlength data ->
  payload_size_of (env_host env) data <= room ->
  main_fuel <= Z.of_nat fuel ->
  exists r,
    main fuel env argv = Some r
    /\ r_status r = EXIT_SUCCESS
    /\ p_out (r_proc r) = [report (env_host env) data]
    /\ p_err (r_proc r) = []
    /\ r_fout r
       = Some (mkOut (slice (payload_offset_of (env_host env) data)
                        (payload_size_of (env_host env) data) data)
                 (room - payload_size_of (env_host env) data))
    /\ p_trace (r_proc r)
       = [Efopen Fin true; Efopen Fout true; Efread sizeof_header 1 true;
          Efseek (payload_offset_of (env_host env) data) true]
         ++ transfer_events (payload_size_of (env_host env) data)
         ++ [Efclose Fout; Efclose Fin].
Proof.
  intros Hopens Hargc Hw Hlen Hmagic Hrange Hroom Hfuel.
  apply (header_of_magic env data Hlen) in Hmagic.
  rewrite (main_with_output fuel env argv data true room) by assumption.
  fold (payload_offset_of (env_host env) data) (payload_size_of (env_host env) data).
  pose proof (decode_range (env_host env) (slice (offsetof payload_offset) 4 data))
    as Hoff.
  pose proof (decode_range (env_host env) (slice (offsetof payload_size) 4 data))
    as Hsz.
  fold (payload_offset_of (env_host env) data) in Hoff.
  fold (payload_size_of (env_host env) data) in Hsz.
  set (off := payload_offset_of (env_host env) data) in *.
  set (sz := payload_size_of (env_host env) data) in *.
  rewrite copy_data_seek_ok
    by (unfold seek_ok; cbn [i_seekable andb]; apply Z.leb_le; lia).
  cbn [i_data i_seekable].
  match goal with
  | |- context [ copy_loop fuel ?b ?i ?o sz ?q ] =>
      destruct (copy_loop_transfer fuel b i o sz q)
        as (c & Hc & Hexit & Hfin & Hfout & Hout & Herr & Htr);
      [ lia | cbn [i_pos]; lia | cbn [i_pos i_data]; lia | cbn [o_room]; lia
      | apply Z.le_trans with main_fuel;
        [apply loop_bound_mono; unfold uint32_max; lia | exact Hfuel]
      | ]
  end.
  rewrite Hc. eexists. split; [reflexivity|].
  cbn [r_status r_proc r_fout fclose log p_out p_err p_trace].
  split; [reflexivity|].
  split; [rewrite Hout; reflexivity|].
  split; [rewrite Herr; reflexivity|].
  split; [rewrite Hfout; reflexivity|].
  rewrite Htr. cbn [printf_stdout log p_trace proc0 i_pos i_data o_data app].
  rewrite <- !app_assoc. reflexivity.
Qed.

Lemma main_extracts_payload_witness :
  exists r,
    main (Z.to_nat main_fuel) (sample_env BigEndian sample_image true 100)
      sample_argv = Some r
    /\ r_status r = EXIT_SUCCESS
    /\ p_out (r_proc r) = [report BigEndian sample_image]
    /\ p_err (r_proc r) = []
    /\ r_fout r
       = Some (mkOut (slice (payload_offset_of BigEndian sample_image)
                        (payload_size_of BigEndian sample_image) sample_image)
                 (100 - payload_size_of BigEndian sample_image))
    /\ p_trace (r_proc r)
       = [Efopen Fin true; Efopen Fout true; Efread sizeof_header 1 true;
          Efseek (payload_offset_of BigEndian sample_image) true]
         ++ transfer_events (payload_size_of BigEndian sample_image)
         ++ [Efclose Fout; Efclose Fin].
Proof.
  apply (main_extracts_payload (Z.to_nat main_fuel)
           (sample_env BigEndian sample_image true 100) sample_argv
           sample_image 100).
  - split; [vm_compute; discriminate|].
      split; [eexists; split; reflexivity|].
    intros _. exists 100. reflexivity.
  - vm_compute. reflexivity.
  - reflexivity.
  - vm_compute. discriminate.
  - repeat split; reflexivity.
  - vm_compute. discriminate.
  - vm_compute. discriminate.
  - vm_compute. discriminate.
Defined.

(** X5: without an output argument [main] only inspects the header: on a
    complete header with the three magic numbers it prints the report,
    closes the input and returns [EXIT_SUCCESS] after a single read of 64
    bytes; it never seeks, so the run succeeds whatever payload range the
    header declares, also one outside the file. *)
Theorem main_header_only fuel env argv data seekable :
  opens env argv data seekable ->
  Zlength argv = 2 ->
  sizeof_header <= Zlength data ->
  has_msdos_magic data /\ has_zimg_magic data /\ has_linux_magic data ->
  exists r,
    main fuel env argv = Some r
    /\ r_status r = EXIT_SUCCESS
    /\ p_out (r_proc r) = [report (env_host env) data]
    /\ p_err (r_proc r) = []
    /\ r_fout r = None
    /\ p_trace (r_proc r)
       = [Efopen Fin true; Efread sizeof_header 1 true; Efclose Fin].
Proof.
  intros Hopens Hargc Hlen Hmagic.
  apply (header_of_magic env data Hlen) in Hmagic.
  rewrite (main_no_output fuel env argv data seekable) by assumption.
  eexists. split; [reflexivity|]. repeat split.
Qed.

Lemma main_header_only_witness :
  exists r,
    main 0 (sample_env LittleEndian (sample_header 1000000 4000000000) true 0)
      ["efiextract"; "vmlinuz.efi"]%string = Some r
    /\ r_status r = EXIT_SUCCESS
    /\ p_out (r_proc r)
       = [report LittleEndian (sample_header 1000000 4000000000)]
    /\ p_err (r_proc r) = []
    /\ r_fout r = None
    /\ p_trace (r_proc r)
       = [Efopen Fin true; Efread sizeof_header 1 true; Efclose Fin].
Proof.
  apply (main_header_only 0
           (sample_env LittleEndian (sample_header 1000000 4000000000) true 0)
           ["efiextract"; "vmlinuz.efi"]%string
           (sample_header 1000000 4000000000) true).
  - split; [vm_compute; discriminate|].
      split; [eexists; split; reflexivity|].
    intros H. vm_compute in H. discriminate.
  - reflexivity.
  - vm_compute. discriminate.
  - repeat split; reflexivity.
Defined.

(** X6: once the streams are open, the header alone decides the exit
    status.  [main] returns [EXIT_SUCCESS] exactly when the input stream
    delivers 64 bytes with the three magic numbers, whatever the copy of the
    payload does, and [EXIT_FAILURE] otherwise; the report is printed on
    stdout in the first case and nothing in the second.  ([data] is what the
    input stream delivers once both streams are open: the content of the
    input file, or nothing when the output argument names the input file.) *)
Theorem main_status_decided_by_header fuel env argv data seekable :
  opens env argv data seekable ->
  main_fuel <= Z.of_nat fuel ->
  exists r,
    main fuel env argv = Some r
    /\ (r_status r = EXIT_SUCCESS \/ r_status r = EXIT_FAILURE)
    /\ (r_status r = EXIT_SUCCESS <->
        sizeof_header <= Zlength data
        /\ has_msdos_magic data /\ has_zimg_magic data /\ has_linux_magic data)
    /\ (r_status r = EXIT_SUCCESS -> p_out (r_proc r) = [report (env_host env) data])
    /\ (r_status r = EXIT_FAILURE -> p_out (r_proc r) = []).
Proof.
  intros Hopens Hfuel.
  destruct (Z_lt_le_dec (Zlength data) sizeof_header) as [Hshort|Hlen].
  { destruct (main_short_header fuel env argv data seekable Hopens Hshort)
      as (r & Hr & Hst & Hout & _).
    exists r. split; [exact Hr|]. split; [now right|].
    rewrite Hst. split; [split; [discriminate | lia]|].
    split; [discriminate | intros _; exact Hout]. }
  destruct (magic_mismatch (header_of env data)) eqn:Hm.
  - destruct (main_bad_magic fuel env argv data seekable Hopens Hlen Hm)
      as (r & Hr & Hst & Hout & _).
    exists r. split; [exact Hr|]. split; [now right|].
    rewrite Hst. split.
    + split; [discriminate|]. intros (_ & Hmagic).
      apply (header_of_magic env data Hlen) in Hmagic. congruence.
    + split; [discriminate | intros _; exact Hout].
  - apply (header_of_magic env data Hlen) in Hm.
    destruct (main_valid_header fuel env argv data seekable Hopens Hlen Hm Hfuel)
      as (r & Hr & Hst & Hout).
    exists r. split; [exact Hr|]. split; [now left|].
    rewrite Hst. split; [tauto|].
    split; [intros _; exact Hout | discriminate].
Qed.

Lemma main_status_decided_by_header_witness :
  exists r,
    main (Z.to_nat main_fuel)
      (sample_env LittleEndian (sample_header 64 4 ++ [xaa]) true 100)
      sample_argv = Some r
    /\ (r_status r = EXIT_SUCCESS \/ r_status r = EXIT_FAILURE)
    /\ (r_status r = EXIT_SUCCESS <->
        sizeof_header <= Zlength (sample_header 64 4 ++ [xaa])
        /\ has_msdos_magic (sample_header 64 4 ++ [xaa])
        /\ has_zimg_magic (sample_header 64 4 ++ [xaa])
        /\ has_linux_magic (sample_header 64 4 ++ [xaa]))
    /\ (r_status r = EXIT_SUCCESS ->
        p_out (r_proc r)
        = [report (env_host (sample_env LittleEndian (sample_header 64 4 ++ [xaa])
                               true 100))
             (sample_header 64 4 ++ [xaa])])
    /\ (r_status r = EXIT_FAILURE -> p_out (r_proc r) = []).
Proof.
  apply (main_status_decided_by_header (Z.to_nat main_fuel)
           (sample_env LittleEndian (sample_header 64 4 ++ [xaa]) true 100)
           sample_argv (sample_header 64 4 ++ [xaa]) true).
  - split; [vm_compute; discriminate|].
      split; [eexists; split; reflexivity|].
    intros _. exists 100. reflexivity.
  - vm_compute. discriminate.
Defined.

(** X7: a copy in which nothing fails makes exactly the calls of
    [transfer_events len] after the seek: a read and a write of 16384 bytes
    for every whole chunk and one of [len mod 16384] bytes for the
    remainder, that is [ceil(len / 16384)] reads and as many writes; it
    leaves the source positioned at [offset + len]. *)
Theorem copy_chunk_sequence fuel buf fin fout offset len p :
  i_seekable fin = true ->
  0 <= offset ->
  0 <= len < 2 ^ 64 ->
  offset + len <= Zlength (i_data fin) ->
  len <= o_room fout ->
  loop_bound len <= Z.of_nat fuel ->
  exists c,
    copy_data fuel buf fin fout offset len p = Some c
    /\ p_trace (c_proc c) = p_trace p ++ Efseek offset true :: transfer_events len
    /\ Zlength (transfer_events len) = 2 * ((len + sizeof_buf - 1) / sizeof_buf)
    /\ c_fin c = mkIn (i_data fin) (offset + len) true
    /\ o_room (c_fout c) = o_room fout - len.
Proof.
  intros Hsk Hoff Hlen Hsrc Hroom Hfuel.
  rewrite copy_data_seek_ok
    by (unfold seek_ok; rewrite Hsk; apply Z.leb_le; exact Hoff).
  destruct (copy_loop_transfer fuel buf
              (mkIn (i_data fin) offset (i_seekable fin)) fout len
              (log (Efseek offset true) p))
    as (c & Hc & _ & Hfin & Hfout & _ & _ & Htr);
    [ exact Hlen | exact Hoff | exact Hsrc | exact Hroom | exact Hfuel | ].
  exists c. split; [exact Hc|].
  cbn [i_pos i_data i_seekable log p_trace] in *.
  split; [rewrite Htr, <- app_assoc; reflexivity|].
  split; [apply transfer_events_length; lia|].
  split; [rewrite Hfin, Hsk; reflexivity|].
  rewrite Hfout. reflexivity.
Qed.

Lemma copy_chunk_sequence_witness :
  exists c,
    copy_data 4 [] (mkIn (ramp 40000) 0 true) (mkOut [] 40000) 5 33000 proc0
      = Some c
    /\ p_trace (c_proc c) = p_trace proc0 ++ Efseek 5 true :: transfer_events 33000
    /\ Zlength (transfer_events 33000) = 2 * ((33000 + sizeof_buf - 1) / sizeof_buf)
    /\ c_fin c = mkIn (i_data (mkIn (ramp 40000) 0 true)) (5 + 33000) true
    /\ o_room (c_fout c) = o_room (mkOut [] 40000) - 33000.
Proof.
  apply (copy_chunk_sequence 4 [] (mkIn (ramp 40000) 0 true) (mkOut [] 40000)
           5 33000 proc0).
  - reflexivity.
  - lia.
  - lia.
  - vm_compute. discriminate.
  - cbn. lia.
  - vm_compute. discriminate.
Defined.

(** X8: a sink that runs out of room within a whole chunk.  When the source
    holds the requested range and the room of the sink ends inside a chunk of
    [sizeof(buf)] bytes, [copy_data] returns at the write error with the
    message "Error writing data": the chunks that fit are read and written,
    and the write of the next whole chunk is the call that fails.  What the
    sink took, the first [o_room] bytes of the range, stays in it. *)
Theorem full_sink_fails fuel buf fin fout offset len p :
  i_seekable fin = true ->
  0 <= offset ->
  0 < len < 2 ^ 64 ->
  offset + len <= Zlength (i_data fin) ->
  0 <= o_room fout ->
  (o_room fout / sizeof_buf + 1) * sizeof_buf <= len ->
  loop_bound len <= Z.of_nat fuel ->
  exists c,
    copy_data fuel buf fin fout offset len p = Some c
    /\ c_exit c = ret_write_error
    /\ p_err (c_proc c) = p_err p ++ [("Error writing data" ++ nl)%string]
    /\ p_trace (c_proc c)
       = p_trace p ++ Efseek offset true
         :: transfer_events (o_room fout / sizeof_buf * sizeof_buf)
         ++ [Efread sizeof_buf 1 true; Efwrite sizeof_buf 1 false]
    /\ o_data (c_fout c) = o_data fout ++ slice offset (o_room fout) (i_data fin).
Proof.
  intros Hsk Hoff Hlen Hsrc Hroom Hwhole Hfuel.
  assert (Hlen' : 0 <= len < 2 ^ 64) by lia.
  assert (Hless : o_room fout < len).
  { pose proof (Z.mod_pos_bound (o_room fout) sizeof_buf ltac:(unfold sizeof_buf; lia)).
    pose proof (Z.div_mod (o_room fout) sizeof_buf ltac:(unfold sizeof_buf; lia)).
    lia. }
  destruct (copy_data_returns fuel buf fin fout offset len p Hlen' Hfuel) as (c & Hrun).
  exists c. split; [exact Hrun|].
  rewrite copy_data_seek_ok in Hrun
    by (unfold seek_ok; rewrite Hsk; apply Z.leb_le; exact Hoff).
  pose proof Hrun as Hcalls.
  apply copy_loop_full_chunk in Hcalls; cbn [i_pos i_data]; try assumption.
  apply copy_loop_full_sink in Hrun; cbn [i_pos i_data]; try assumption.
  destruct Hrun as (Hexit & Herr & Hsink).
  cbn [i_pos i_data p_trace p_err log] in *.
  rewrite Z.max_r in Hsink by exact Hroom.
  split; [exact Hexit|]. split; [exact Herr|]. split; [|exact Hsink].
  rewrite Hcalls, <- app_assoc. reflexivity.
Qed.

Lemma full_sink_fails_witness :
  exists c,
    copy_data 4 [] (mkIn (ramp 40000) 0 true) (mkOut [] 20000) 5 33000 proc0
      = Some c
    /\ c_exit c = ret_write_error
    /\ p_err (c_proc c) = p_err proc0 ++ [("Error writing data" ++ nl)%string]
    /\ p_trace (c_proc c)
       = p_trace proc0 ++ Efseek 5 true
         :: transfer_events (o_room (mkOut [] 20000) / sizeof_buf * sizeof_buf)
         ++ [Efread sizeof_buf 1 true; Efwrite sizeof_buf 1 false]
    /\ o_data (c_fout c)
       = o_data (mkOut [] 20000)
         ++ slice 5 (o_room (mkOut [] 20000)) (i_data (mkIn (ramp 40000) 0 true)).
Proof.
  apply (full_sink_fails 4 [] (mkIn (ramp 40000) 0 true) (mkOut [] 20000)
           5 33000 proc0).
  - reflexivity.
  - lia.
  - lia.
  - vm_compute. discriminate.
  - cbn. lia.
  - vm_compute. discriminate.
  - vm_compute. discriminate.
Defined.

(** X9: in a run of [main] that reaches the copy, the seek fails exactly
    when the input cannot be positioned: the offset comes from a [uint32_t]
    and is never negative.  On such an input [main] prints "Error seeking
    data: Illegal seek", reads and writes nothing more, leaves the output
    empty, closes both streams and returns [EXIT_SUCCESS].  (A run reaches
    the copy when the input stream delivers, with both streams open, a
    complete header with the three magic numbers; it delivers nothing when
    the output argument names the input file.) *)
Theorem main_seek_outcome fuel env argv data seekable room :
  opens env argv data seekable ->
  2 < Zlength argv ->
  env_open_w env (nth 2%nat argv EmptyString) = Opened room ->
  sizeof_header <= Zlength data ->
  has_msdos_magic data /\ has_zimg_magic data /\ has_linux_magic data ->
  main_fuel <= Z.of_nat fuel ->
  exists r evs,
    main fuel env argv = Some r
    /\ p_trace (r_proc r)
       = [Efopen Fin true; Efopen Fout true; Efread sizeof_header 1 true;
          Efseek (payload_offset_of (env_host env) data) seekable] ++ evs
    /\ (seekable = false ->
        evs = [Efclose Fout; Efclose Fin]
        /\ p_err (r_proc r) = ["Error seeking data: Illegal seek"%string]
        /\ r_fout r = Some (mkOut [] room)
        /\ r_status r = EXIT_SUCCESS).
Proof.
  intros Hopens Hargc Hw Hlen Hmagic Hfuel.
  apply (header_of_magic env data Hlen) in Hmagic.
  rewrite (main_with_output fuel env argv data seekable room) by assumption.
  fold (payload_offset_of (env_host env) data) (payload_size_of (env_host env) data).
  pose proof (decode_range (env_host env) (slice (offsetof payload_offset) 4 data))
    as Hoff.
  pose proof (decode_range (env_host env) (slice (offsetof payload_size) 4 data))
    as Hsz.
  fold (payload_offset_of (env_host env) data) in Hoff.
  fold (payload_size_of (env_host env) data) in Hsz.
  set (off := payload_offset_of (env_host env) data) in *.
  set (sz := payload_size_of (env_host env) data) in *.
  destruct seekable.
  - rewrite copy_data_seek_ok
      by (unfold seek_ok; cbn [i_seekable andb]; apply Z.leb_le; lia).
    match goal with
    | |- context [ copy_loop fuel ?b ?i ?o sz ?q ] =>
        destruct (copy_loop_returns fuel b i o sz q) as (c & Hc);
        [ lia
        | apply Z.le_trans with main_fuel;
          [apply loop_bound_mono; unfold uint32_max; lia | exact Hfuel]
        | rewrite Hc; apply copy_loop_trace_extends in Hc;
          destruct Hc as (evs & Htr) ]
    end.
    eexists. exists (evs ++ [Efclose Fout; Efclose Fin]).
    split; [reflexivity|]. split; [|discriminate].
    cbn [r_proc fclose log p_trace]. rewrite Htr.
    cbn [printf_stdout log p_trace proc0 app]. rewrite <- !app_assoc. reflexivity.
  - unfold copy_data, fseek. cbn [i_seekable negb Z.eqb].
    eexists. eexists. split; [reflexivity|].
    split; [reflexivity|]. intros _. repeat split.
Qed.

Lemma main_seek_outcome_witness :
  exists r evs,
    main (Z.to_nat main_fuel) (sample_env LittleEndian sample_image false 100)
      sample_argv = Some r
    /\ p_trace (r_proc r)
       = [Efopen Fin true; Efopen Fout true; Efread sizeof_header 1 true;
          Efseek (payload_offset_of
                    (env_host (sample_env LittleEndian sample_image false 100))
                    sample_image) false] ++ evs
    /\ (false = false ->
        evs = [Efclose Fout; Efclose Fin]
        /\ p_err (r_proc r) = ["Error seeking data: Illegal seek"%string]
        /\ r_fout r = Some (mkOut [] 100)
        /\ r_status r = EXIT_SUCCESS).
Proof.
  apply (main_seek_outcome (Z.to_nat main_fuel)
           (sample_env LittleEndian sample_image false 100) sample_argv
           sample_image false 100).
  - split; [vm_compute; discriminate|].
      split; [eexists; split; reflexivity|].
    intros _. exists 100. reflexivity.
  - vm_compute. reflexivity.
  - reflexivity.
  - vm_compute. discriminate.
  - repeat split; reflexivity.
  - vm_compute. discriminate.
Defined.

(** X10: the failures before the header is read.  With fewer than two
    arguments [main] prints the usage line and opens nothing.  When the
    input cannot be opened it reports the path with the system's message
    and never opens (and so never creates or truncates) the output.  When
    the output cannot be opened it closes the input, reports the path and
    reads nothing.  All three return [EXIT_FAILURE] with stdout empty. *)
Theorem main_open_failures :
  (forall fuel env argv,
      Zlength argv < 2 ->
      exists r,
        main fuel env argv = Some r
        /\ r_status r = EXIT_FAILURE
        /\ p_out (r_proc r) = []
        /\ p_err (r_proc r)
           = [("Usage: " ++ nth 0%nat argv EmptyString
               ++ " <input> [<output>]" ++ nl)%string]
        /\ p_trace (r_proc r) = [])
  /\ (forall fuel env argv e,
         2 <= Zlength argv ->
         env_open_r env (nth 1%nat argv EmptyString) = OpenFailed e ->
         exists r,
           main fuel env argv = Some r
           /\ r_status r = EXIT_FAILURE
           /\ p_out (r_proc r) = []
           /\ p_err (r_proc r)
              = [("Error opening " ++ nth 1%nat argv EmptyString ++ ": "
                  ++ strerror e ++ nl)%string]
           /\ p_trace (r_proc r) = [Efopen Fin false])
  /\ (forall fuel env argv data seekable e,
         2 < Zlength argv ->
         env_open_r env (nth 1%nat argv EmptyString) = Opened (data, seekable) ->
         env_open_w env (nth 2%nat argv EmptyString) = OpenFailed e ->
         exists r,
           main fuel env argv = Some r
           /\ r_status r = EXIT_FAILURE
           /\ p_out (r_proc r) = []
           /\ p_err (r_proc r)
              = [("Error opening " ++ nth 2%nat argv EmptyString ++ ": "
                  ++ strerror e ++ nl)%string]
           /\ p_trace (r_proc r)
              = [Efopen Fin true; Efopen Fout false; Efclose Fin]).
Proof.
  split; [|split].
  - intros fuel env argv Hargc. rewrite main_usage by exact Hargc.
    eexists. split; [reflexivity|]. repeat split.
  - intros fuel env argv e Hargc Hin.
    rewrite (main_input_unopened fuel env argv e) by assumption.
    eexists. split; [reflexivity|]. repeat split.
  - intros fuel env argv data seekable e Hargc Hin Hw.
    rewrite (main_output_unopened fuel env argv data seekable e) by assumption.
    eexists. split; [reflexivity|]. repeat split.
Qed.

Lemma main_open_failures_witness :
  (exists r,
      main 0 env_no_input ["efiextract"%string] = Some r
      /\ r_status r = EXIT_FAILURE
      /\ p_out (r_proc r) = []
      /\ p_err (r_proc r)
         = [("Usage: " ++ nth 0%nat ["efiextract"%string] EmptyString
             ++ " <input> [<output>]" ++ nl)%string]
      /\ p_trace (r_proc r) = [])
  /\ (exists r,
         main 0 env_no_input sample_argv = Some r
         /\ r_status r = EXIT_FAILURE
         /\ p_out (r_proc r) = []
         /\ p_err (r_proc r)
            = [("Error opening " ++ nth 1%nat sample_argv EmptyString ++ ": "
                ++ strerror ENOENT ++ nl)%string]
         /\ p_trace (r_proc r) = [Efopen Fin false])
  /\ (exists r,
         main 0 env_no_output sample_argv = Some r
         /\ r_status r = EXIT_FAILURE
         /\ p_out (r_proc r) = []
         /\ p_err (r_proc r)
            = [("Error opening " ++ nth 2%nat sample_argv EmptyString ++ ": "
                ++ strerror EACCES ++ nl)%string]
         /\ p_trace (r_proc r)
            = [Efopen Fin true; Efopen Fout false; Efclose Fin]).
Proof.
  split; [|split].
  - apply (proj1 main_open_failures 0%nat env_no_input ["efiextract"%string]).
    vm_compute. reflexivity.
  - apply (proj1 (proj2 main_open_failures) 0%nat env_no_input sample_argv ENOENT).
    + vm_compute. discriminate.
    + reflexivity.
  - apply (proj2 (proj2 main_open_failures) 0%nat env_no_output sample_argv
             sample_image true EACCES).
    + vm_compute. reflexivity.
    + reflexivity.
    + reflexivity.
Defined.

(** X11: the output is opened, and so created or truncated, before the
    header is read.  When an output is named and the header is truncated or
    carries a wrong magic number, [main] returns [EXIT_FAILURE] and leaves
    the output empty: it wrote nothing to it and did not close it. *)
Theorem parse_failure_leaves_empty_output fuel env argv data seekable room :
  opens env argv data seekable ->
  2 < Zlength argv ->
  env_open_w env (nth 2%nat argv EmptyString) = Opened room ->
  Zlength data < sizeof_header
  \/ ~ has_msdos_magic data \/ ~ has_zimg_magic data \/ ~ has_linux_magic data ->
  exists r,
    main fuel env argv = Some r
    /\ r_status r = EXIT_FAILURE
    /\ r_fout r = Some (mkOut [] room)
    /\ (exists ok,
          p_trace (r_proc r)
          = Efopen Fin true :: Efopen Fout true :: Efread sizeof_header 1 ok
            :: (if ok then [] else [Efclose Fin])).
Proof.
  intros Hopens Hargc Hw Hbad.
  destruct (Z_lt_le_dec (Zlength data) sizeof_header) as [Hshort|Hlen].
  - open_streams Hopens; [|lia].
    rewrite Hw in Hroom. injection Hroom as <-.
    destruct (fread_short (env_header env) sizeof_header (mkIn data 0 seekable)
                (log (Efopen Fout true) (log (Efopen Fin true) proc0)))
      as (o' & s' & E & _); [reflexivity | cbn [i_data i_pos]; lia |].
    rewrite E. cbn [Z.eqb negb]. eexists. split; [reflexivity|].
    split; [reflexivity|]. split; [reflexivity|]. exists false. reflexivity.
  - assert (Hm : magic_mismatch (header_of env data) = true).
    { destruct (magic_mismatch (header_of env data)) eqn:Hm; [reflexivity|].
      apply (header_of_magic env data Hlen) in Hm. destruct Hbad; [lia | tauto]. }
    unfold magic_mismatch in Hm.
    open_streams Hopens; [|lia].
    rewrite Hw in Hroom. injection Hroom as <-.
    rewrite fread_header by exact Hlen. cbn [Z.eqb Pos.eqb negb]. rewrite Hm.
    eexists. split; [reflexivity|].
    split; [reflexivity|]. split; [reflexivity|]. exists true. reflexivity.
Qed.

Lemma parse_failure_leaves_empty_output_witness :
  exists r,
    main 0 (sample_env LittleEndian mx_image true 100) sample_argv = Some r
    /\ r_status r = EXIT_FAILURE
    /\ r_fout r = Some (mkOut [] 100)
    /\ (exists ok,
          p_trace (r_proc r)
          = Efopen Fin true :: Efopen Fout true :: Efread sizeof_header 1 ok
            :: (if ok then [] else [Efclose Fin])).
Proof.
  apply (parse_failure_leaves_empty_output 0
           (sample_env LittleEndian mx_image true 100) sample_argv mx_image true 100).
  - split; [vm_compute; discriminate|].
      split; [eexists; split; reflexivity|].
    intros _. exists 100. reflexivity.
  - vm_compute. reflexivity.
  - reflexivity.
  - right. left. vm_compute. discriminate.
Defined.

(** X12: in a run in which the input stream delivers, once the streams are
    open, a complete header with the three magic numbers, the compression
    type that the report shows is the content of the 32-byte member up to
    its first NUL byte, and the whole member when it holds no NUL: the print
    never runs past the member.  (With an output argument that names the
    input file the stream delivers nothing, and there is no report.) *)
Theorem report_label fuel env argv data seekable label pad :
  opens env argv data seekable ->
  sizeof_header <= Zlength data ->
  has_msdos_magic data /\ has_zimg_magic data /\ has_linux_magic data ->
  main_fuel <= Z.of_nat fuel ->
  slice (offsetof compression_type) 32 data = label ++ pad ->
  ~ In x00 label ->
  pad = [] \/ (exists pad', pad = x00 :: pad') ->
  exists r,
    main fuel env argv = Some r
    /\ p_out (r_proc r)
       = [("Compression:    " ++ string_of_list_byte label ++ nl ++
           "Payload offset: " ++ fmt_u (payload_offset_of (env_host env) data)
           ++ " Bytes" ++ nl ++
           "Payload size:   " ++ fmt_u (payload_size_of (env_host env) data)
           ++ " Bytes" ++ nl)%string].
Proof.
  intros Hopens Hlen Hmagic Hfuel Hfield Hno Hpad.
  destruct (main_valid_header fuel env argv data seekable Hopens Hlen Hmagic Hfuel)
    as (r & Hr & _ & Hout).
  exists r. split; [exact Hr|]. rewrite Hout. unfold report, fmt_s.
  change (sizeof_field compression_type) with 32.
  assert (Hl : List.length (slice (offsetof compression_type) 32 data) = 32%nat).
  { rewrite slice_length; [reflexivity | vm_compute; discriminate | lia |].
    change (offsetof compression_type) with 24.
    change sizeof_header with 64 in Hlen. lia. }
  rewrite firstn_all2 by (rewrite Hl; apply Nat.le_refl).
  rewrite Hfield, until_nul_label by assumption.
  reflexivity.
Qed.

Lemma report_label_witness :
  exists r,
    main (Z.to_nat main_fuel) (sample_env BigEndian sample_image true 100)
      sample_argv = Some r
    /\ p_out (r_proc r)
       = [("Compression:    " ++ string_of_list_byte [x67; x7a; x69; x70] ++ nl ++
           "Payload offset: "
           ++ fmt_u (payload_offset_of
                       (env_host (sample_env BigEndian sample_image true 100))
                       sample_image)
           ++ " Bytes" ++ nl ++
           "Payload size:   "
           ++ fmt_u (payload_size_of
                       (env_host (sample_env BigEndian sample_image true 100))
                       sample_image)
           ++ " Bytes" ++ nl)%string].
Proof.
  apply (report_label (Z.to_nat main_fuel)
           (sample_env BigEndian sample_image true 100) sample_argv
           sample_image true [x67; x7a; x69; x70] (repeat x00 28)).
  - split; [vm_compute; discriminate|].
      split; [eexists; split; reflexivity|].
    intros _. exists 100. reflexivity.
  - vm_compute. discriminate.
  - repeat split; reflexivity.
  - vm_compute. discriminate.
  - reflexivity.
  - cbn. intros [H|[H|[H|[H|[]]]]]; discriminate.
  - right. exists (repeat x00 27). reflexivity.
Defined.

(** X13: decoding a wire field loses nothing: re-encoding the decoded
    value little-endian gives the four bytes back, so two fields decode to
    the same value exactly when they are the same bytes. *)
Theorem decode_injective (host : byte_order) (bs bs' : list byte) :
  List.length bs = 4%nat ->
  List.length bs' = 4%nat ->
  encode_le (decode host bs) = bs
  /\ (decode host bs = decode host bs' <-> bs = bs').
Proof.
  intros Hl Hl'. split; [now apply encode_decode_le|].
  split; [|now intros ->].
  intros E.
  rewrite <- (encode_decode_le host bs Hl), <- (encode_decode_le host bs' Hl').
  now rewrite E.
Qed.

Lemma decode_injective_witness :
  encode_le (decode BigEndian [x78; x56; x34; x12]) = [x78; x56; x34; x12]
  /\ (decode BigEndian [x78; x56; x34; x12] = decode BigEndian [x12; x34; x56; x78]
      <-> [x78; x56; x34; x12] = [x12; x34; x56; x78]).
Proof.
  apply (decode_injective BigEndian [x78; x56; x34; x12] [x12; x34; x56; x78]);
    reflexivity.
Defined.

(** X14: when the seek fails, on a source that cannot be positioned or for
    a negative offset, [copy_data] returns at once for every length: it
    prints "Error seeking data: " with the system's message (and no
    newline), calls neither [fread] nor [fwrite], and leaves the source and
    the sink as they were. *)
Theorem seek_failure_touches_nothing fuel buf fin fout offset len p :
  i_seekable fin = false \/ offset < 0 ->
  copy_data fuel buf fin fout offset len p
  = Some (mkCopy ret_seek_error fin fout
            (mkProc (p_out p)
               (p_err p
                ++ [("Error seeking data: "
                     ++ strerror (if i_seekable fin then EINVAL else ESPIPE))%string])
               (p_trace p ++ [Efseek offset false])
               (if i_seekable fin then EINVAL else ESPIPE))).
Proof.
  intros H. unfold copy_data, fseek.
  destruct (i_seekable fin); cbn [negb].
  - destruct H as [H|H]; [discriminate|].
    replace (offset <? 0) with true by (symmetry; apply Z.ltb_lt; exact H).
    reflexivity.
  - reflexivity.
Qed.

Lemma seek_failure_touches_nothing_witness :
  copy_data 0 [] (mkIn (ramp 100) 0 true) (mkOut [x01] 50) (-1) 10 proc0
  = Some (mkCopy ret_seek_error (mkIn (ramp 100) 0 true) (mkOut [x01] 50)
            (mkProc (p_out proc0)
               (p_err proc0
                ++ [("Error seeking data: "
                     ++ strerror (if i_seekable (mkIn (ramp 100) 0 true)
                                  then EINVAL else ESPIPE))%string])
               (p_trace proc0 ++ [Efseek (-1) false])
               (if i_seekable (mkIn (ramp 100) 0 true) then EINVAL else ESPIPE))).
Proof.
  apply (seek_failure_touches_nothing 0 [] (mkIn (ramp 100) 0 true)
           (mkOut [x01] 50) (-1) 10 proc0).
  right. lia.
Defined.

(** X15: whatever happens, the sink only ever receives a prefix of the
    requested range: after [copy_data] has returned, at any of its four
    exits, the sink holds what it held before followed by
    [source[offset : offset + m]] for some [m <= len], all of it bytes that
    exist in the source. *)
Theorem sink_holds_prefix_of_range fuel buf fin fout offset len p :
  0 <= len < 2 ^ 64 ->
  loop_bound len <= Z.of_nat fuel ->
  exists c m,
    copy_data fuel buf fin fout offset len p = Some c
    /\ 0 <= m <= len
    /\ o_data (c_fout c) = o_data fout ++ slice offset m (i_data fin)
    /\ (0 < m -> 0 <= offset /\ offset + m <= Zlength (i_data fin)).
Proof.
  intros Hlen Hfuel.
  destruct (copy_data_returns fuel buf fin fout offset len p Hlen Hfuel) as (c & Hrun).
  exists c. destruct (seek_ok fin offset) eqn:Hs.
  - assert (Hoff : 0 <= offset).
    { unfold seek_ok in Hs. apply andb_prop in Hs. destruct Hs as [_ Hs].
      now apply Z.leb_le. }
    pose proof Hrun as Hrun'.
    rewrite copy_data_seek_ok in Hrun' by exact Hs.
    apply copy_loop_prefix in Hrun'; [|exact Hlen|exact Hoff].
    destruct Hrun' as (m & Hm & Hfit & Hsink & _).
    cbn [i_pos i_data] in *.
    exists m. split; [exact Hrun|]. split; [exact Hm|]. split; [exact Hsink|].
    lia.
  - destruct (copy_data_seek_fail fuel buf fin fout offset len p Hs) as (e & E).
    exists 0. split; [exact Hrun|].
    rewrite E in Hrun. injection Hrun as <-. cbn [c_fout c_exit].
    rewrite slice_zero, app_nil_r.
    split; [lia|]. split; [reflexivity|]. lia.
Qed.

Lemma sink_holds_prefix_of_range_witness :
  exists c m,
    copy_data 4 [] (mkIn (ramp 20000) 0 true) (mkOut [] 17000) 5 33000 proc0
      = Some c
    /\ 0 <= m <= 33000
    /\ o_data (c_fout c)
       = o_data (mkOut [] 17000) ++ slice 5 m (i_data (mkIn (ramp 20000) 0 true))
    /\ (0 < m -> 0 <= 5 /\ 5 + m <= Zlength (i_data (mkIn (ramp 20000) 0 true))).
Proof.
  apply (sink_holds_prefix_of_range 4 [] (mkIn (ramp 20000) 0 true)
           (mkOut [] 17000) 5 33000 proc0).
  - lia.
  - vm_compute. discriminate.
Defined.

Lemma main_valid_header_stderr fuel env argv data seekable :
  opens env argv data seekable ->
  sizeof_header <= Zlength data ->
  magic_mismatch (header_of env data) = false ->
  main_fuel <= Z.of_nat fuel ->
  exists r,
    main fuel env argv = Some r
    /\ r_status r = EXIT_SUCCESS
    /\ p_out (r_proc r) = [report (env_host env) data]
    /\ (List.length (p_err (r_proc r)) <= 1)%nat.
Proof.
  intros Hopens Hlen Hm Hfuel.
  destruct (Z.ltb_spec 2 (Zlength argv)) as [Hargc|Hargc].
  - pose proof Hopens as (_ & _ & Hout).
    destruct (Hout Hargc) as (room & Hw).
    rewrite (main_with_output fuel env argv data seekable room) by assumption.
    pose proof (decode_range (env_host env) (slice (offsetof payload_size) 4 data))
      as Hsz.
    match goal with
    | |- context [ copy_data ?f ?b ?i ?o ?off ?l ?q ] =>
        destruct (copy_data_returns f b i o off l q) as (c & Hc);
        [ lia
        | apply Z.le_trans with main_fuel;
          [apply loop_bound_mono; unfold uint32_max; lia | exact Hfuel]
        | rewrite Hc;
          pose proof (copy_data_stderr f b i o off l q c ltac:(lia) Hc) as Herr;
          pose proof (copy_data_keeps_stdout f b i o off l q c ltac:(lia) Hc) as Hout' ]
    end.
    eexists. split; [reflexivity|].
    cbn [r_proc r_status fclose log p_err p_out printf_stdout proc0] in *.
    split; [reflexivity|]. split; [rewrite Hout'; reflexivity|].
    destruct Herr as [-> | (msg & ->)]; cbn; lia.
  - assert (Hargc2 : Zlength argv = 2) by (destruct Hopens; lia).
    rewrite (main_no_output fuel env argv data seekable) by assumption.
    eexists. split; [reflexivity|]. cbn. repeat split; lia.
Qed.

(** X16: every run of [main] prints at most one message on stderr; a run
    that returns [EXIT_FAILURE] prints exactly one and nothing on stdout, and
    a run that returns [EXIT_SUCCESS] has printed the report of the header
    that the input stream delivered, and nothing else, on stdout. *)
Theorem one_diagnostic_per_run fuel env argv :
  main_fuel <= Z.of_nat fuel ->
  exists r,
    main fuel env argv = Some r
    /\ (List.length (p_err (r_proc r)) <= 1)%nat
    /\ (r_status r = EXIT_FAILURE ->
        List.length (p_err (r_proc r)) = 1%nat /\ p_out (r_proc r) = [])
    /\ (r_status r = EXIT_SUCCESS ->
        exists data seekable,
          opens env argv data seekable
          /\ p_out (r_proc r) = [report (env_host env) data]).
Proof.
  intros Hfuel.
  destruct (Z_lt_le_dec (Zlength argv) 2) as [Hargc|Hargc].
  { rewrite main_usage by exact Hargc. eexists. split; [reflexivity|].
    cbn; repeat split; intros; try lia; try discriminate; try reflexivity. }
  destruct (env_open_r env (nth 1%nat argv EmptyString)) as [[data0 seekable]|e] eqn:Hin.
  2: { rewrite (main_input_unopened fuel env argv e) by assumption.
       eexists. split; [reflexivity|].
       cbn; repeat split; intros; try lia; try discriminate; try reflexivity. }
  assert (Hout : (2 < Zlength argv ->
                  exists room, env_open_w env (nth 2%nat argv EmptyString) = Opened room)
                 \/ (2 < Zlength argv
                     /\ exists e, env_open_w env (nth 2%nat argv EmptyString)
                                  = OpenFailed e)).
  { destruct (Z_lt_le_dec 2 (Zlength argv)) as [Hargc3|Hargc2]; [|left; lia].
    destruct (env_open_w env (nth 2%nat argv EmptyString)) as [room|e].
    - left. intros _. now exists room.
    - right. split; [exact Hargc3|]. now exists e. }
  destruct Hout as [Hout|(Hargc3 & e & Hw)].
  2: { rewrite (main_output_unopened fuel env argv data0 seekable e) by assumption.
       eexists. split; [reflexivity|].
       cbn; repeat split; intros; try lia; try discriminate; try reflexivity. }
  set (data := delivered env argv data0).
  assert (Hopens : opens env argv data seekable).
  { split; [exact Hargc|]. split; [|exact Hout].
    exists data0. split; [exact Hin | reflexivity]. }
  destruct (Z_lt_le_dec (Zlength data) sizeof_header) as [Hshort|Hlen].
  { destruct (main_short_header fuel env argv data seekable Hopens Hshort)
      as (r & Hr & Hst & Hout' & Herr & _).
    exists r. split; [exact Hr|]. rewrite Herr, Hout', Hst.
    cbn; repeat split; intros; try lia; try discriminate; try reflexivity. }
  destruct (magic_mismatch (header_of env data)) eqn:Hm.
  { destruct (main_bad_magic fuel env argv data seekable Hopens Hlen Hm)
      as (r & Hr & Hst & Hout' & Herr & _).
    exists r. split; [exact Hr|]. rewrite Herr, Hout', Hst.
    cbn; repeat split; intros; try lia; try discriminate; try reflexivity. }
  destruct (main_valid_header_stderr fuel env argv data seekable Hopens Hlen Hm Hfuel)
    as (r & Hr & Hst & Hout' & Herr).
  exists r. split; [exact Hr|]. split; [exact Herr|]. rewrite Hst.
  split; [discriminate|]. intros _. exists data, seekable.
  split; [exact Hopens | exact Hout'].
Qed.

Lemma one_diagnostic_per_run_witness :
  exists r,
    main (Z.to_nat main_fuel)
      (sample_env LittleEndian (sample_header 64 4 ++ [xaa]) true 100)
      sample_argv = Some r
    /\ (List.length (p_err (r_proc r)) <= 1)%nat
    /\ (r_status r = EXIT_FAILURE ->
        List.length (p_err (r_proc r)) = 1%nat /\ p_out (r_proc r) = [])
    /\ (r_status r = EXIT_SUCCESS ->
        exists data seekable,
          opens (sample_env LittleEndian (sample_header 64 4 ++ [xaa]) true 100)
            sample_argv data seekable
          /\ p_out (r_proc r)
             = [report
                  (env_host
                     (sample_env LittleEndian (sample_header 64 4 ++ [xaa]) true 100))
                  data]).
Proof.
  apply (one_diagnostic_per_run (Z.to_nat main_fuel)
           (sample_env LittleEndian (sample_header 64 4 ++ [xaa]) true 100)
           sample_argv).
  vm_compute. discriminate.
Defined.

(** X17: an output argument that names the input file destroys the image.
    When both opens succeed and the two paths name the same file, opening
    the output empties the file before the header is read: whatever the file
    held, [main] reads no header, prints "Error reading EFI zboot header"
    and no report, closes the input, returns [EXIT_FAILURE] and leaves the
    file empty. *)
Theorem output_over_input_destroys_image fuel env argv data0 seekable room :
  2 < Zlength argv ->
  env_open_r env (nth 1%nat argv EmptyString) = Opened (data0, seekable) ->
  env_open_w env (nth 2%nat argv EmptyString) = Opened room ->
  env_same_file env (nth 1%nat argv EmptyString) (nth 2%nat argv EmptyString) = true ->
  exists r,
    main fuel env argv = Some r
    /\ r_status r = EXIT_FAILURE
    /\ p_out (r_proc r) = []
    /\ p_err (r_proc r) = [("Error reading EFI zboot header" ++ nl)%string]
    /\ p_trace (r_proc r)
       = [Efopen Fin true; Efopen Fout true; Efread sizeof_header 1 false;
          Efclose Fin]
    /\ r_fin r = Some (mkIn [] 0 seekable)
    /\ r_fout r = Some (mkOut [] room).
Proof.
  intros Hargc Hin Hw Hsame. unfold main.
  replace (Zlength argv <? 2) with false by (symmetry; apply Z.ltb_ge; lia).
  replace (2 <? Zlength argv) with true by (symmetry; apply Z.ltb_lt; lia).
  unfold fopen_r. rewrite Hin. unfold fopen_w. rewrite Hw, Hsame.
  cbn [truncate_reader i_pos i_seekable is_null andb].
  eexists. split; [reflexivity|]. repeat split.
Qed.

Lemma output_over_input_destroys_image_witness :
  exists r,
    main (Z.to_nat main_fuel) (sample_env LittleEndian sample_image true 100)
      ["efiextract"; "vmlinuz.efi"; "vmlinuz.efi"]%string = Some r
    /\ r_status r = EXIT_FAILURE
    /\ p_out (r_proc r) = []
    /\ p_err (r_proc r) = [("Error reading EFI zboot header" ++ nl)%string]
    /\ p_trace (r_proc r)
       = [Efopen Fin true; Efopen Fout true; Efread sizeof_header 1 false;
          Efclose Fin]
    /\ r_fin r = Some (mkIn [] 0 true)
    /\ r_fout r = Some (mkOut [] 100).
Proof.
  apply (output_over_input_destroys_image (Z.to_nat main_fuel)
           (sample_env LittleEndian sample_image true 100)
           ["efiextract"; "vmlinuz.efi"; "vmlinuz.efi"]%string
           sample_image true 100).
  - vm_compute. reflexivity.
  - reflexivity.
  - reflexivity.
  - reflexivity.
Defined.
